(** * TipJar: tip-pool distribution, bill rounding, OCR text parsing

    A shallow embedding of the server-side code of the TipJar application:
    the [/api/distributions/calculate] route of [registerRoutes], the
    Gemini [analyzeImage] client, and the [extractPartnerHours] parser.

    JavaScript numbers are IEEE-754 binary64 values, modelled with the
    Standard Library's [spec_float] (precision 53, emax 1024); their exact
    values are read as rationals with [to_Q]. *)

From Stdlib Require Import ZArith QArith Qround List String Ascii Bool Lia.
From Stdlib Require Import Qabs SpecFloat DecimalString Lqa.
Import ListNotations.

Set Warnings "-register-all".
Open Scope string_scope.
Open Scope Z_scope.

(** ** JavaScript numbers *)
Module Num.

Definition prec : Z := 53.
Definition emax : Z := 1024.

Definition number := spec_float.

(** [x * y] *)
Definition mul (x y : number) : number := SFmul prec emax x y.
(** [x / y] *)
Definition div (x y : number) : number := SFdiv prec emax x y.
(** [x + y] *)
Definition add (x y : number) : number := SFadd prec emax x y.
(** [x <= y] and [x < y]; both are false when an operand is NaN. *)
Definition leb (x y : number) : bool := SFleb x y.
Definition ltb (x y : number) : bool := SFltb x y.

(** The global [isFinite] on a number. *)
Definition isFinite (x : number) : bool :=
  match x with
  | S754_zero _ | S754_finite _ _ _ => true
  | S754_infinity _ | S754_nan => false
  end.

(** [isNaN] *)
Definition isNaN (x : number) : bool :=
  match x with S754_nan => true | _ => false end.

(** The literal [0]. *)
Definition zero : number := S754_zero false.

(** The number nearest to an integer (a numeric literal). *)
Definition of_Z (z : Z) : number := binary_normalize prec emax z 0 false.

(** The exact value of a finite number (0 for NaN and the infinities). *)
Definition to_Q (x : number) : Q :=
  match x with
  | S754_finite s m e =>
      let q := match e with
               | Zneg p => Zpos m # Pos.pow 2 p
               | _ => inject_Z (Zpos m * 2 ^ e)
               end in
      if s then Qopp q else q
  | _ => 0%Q
  end.

End Num.

Import Num.

(** ** Exceptions

    A computation that returns a value or throws an [Error] with a
    message, as the route handlers' [try] blocks see it. *)
Inductive exc (A : Type) : Type :=
| Ret (a : A)
| Throw (msg : string).
Arguments Ret {A} a.
Arguments Throw {A} msg.

Definition bind {A B : Type} (m : exc A) (k : A -> exc B) : exc B :=
  match m with
  | Ret a => k a
  | Throw msg => Throw msg
  end.

Notation "x <- m ;; k" := (bind m (fun x => k))
  (at level 61, m at next level, right associativity).

(** [Array.prototype.map] with a callback that may throw: the first
    exception escapes. *)
Fixpoint mapM {A B : Type} (f : A -> exc B) (l : list A) : exc (list B) :=
  match l with
  | [] => Ret []
  | a :: l' => b <- f a ;; bs <- mapM f l' ;; Ret (b :: bs)
  end.

(** ** JSON values sent by [res.json] *)
Inductive json : Type :=
| JNull
| JBool (b : bool)
| JNum (n : number)
| JStr (s : string)
| JArr (l : list json)
| JObj (fields : list (string * json)).

Inductive response : Type :=
| Respond (status : Z) (body : json).

(** ** The allocation core (imported by the route from [client/src/lib])

    [calculatePayout] ([client/src/lib/utils]), [roundAndCalculateBills]
    ([client/src/lib/billCalc]) and [partnerHoursSchema] ([@shared/schema])
    are imported by [registerRoutes] but their code is not part of the
    sources at hand; they are modelled from the spec below. *)

Record PartnerHours : Type := mkPartnerHours {
  ph_name : string;
  ph_hours : number
}.

(** Modelled from the spec: [calculatePayout] (client/src/lib/utils),
    "For each partner: payout = hours * hourlyRate", the JavaScript
    product of the two numbers. *)
Definition calculatePayout (hours hourlyRate : number) : number :=
  mul hours hourlyRate.

(** Modelled from the spec: [partnerHoursSchema.parse] (@shared/schema),
    "PartnerHours: name: string (non-empty, trimmed), hours: number
    (> 0, finite)"; [true] when the parse succeeds. *)
Definition partnerHoursSchema_parse (l : list PartnerHours) : bool :=
  forallb (fun p => negb (String.eqb (ph_name p) EmptyString)
                    && isFinite (ph_hours p) && ltb zero (ph_hours p)) l.

(** The Bill Rounder's failures. *)
Inductive RoundError : Type :=
| NegativePayout
| NonFiniteInput.

(** Modelled from the spec: the denomination set of [billCalc],
    "$20, $10, $5, $1, $0.25, $0.10, $0.05, $0.01", in cents, largest
    first. *)
Definition denominations : list Z := [2000; 1000; 500; 100; 25; 10; 5; 1].

(** Modelled from the spec: the greedy walk of [billCalc], "Walk
    denominations from largest to smallest; at each step take
    count = floor(remaining / denomination), subtract count * denomination
    from remaining, and record count if nonzero".  Returns the breakdown
    (denomination, count) and the final [remaining]. *)
Fixpoint greedy (denoms : list Z) (remaining : Z) : list (Z * Z) * Z :=
  match denoms with
  | [] => ([], remaining)
  | d :: ds =>
      let count := remaining / d in
      let '(bd, rest) := greedy ds (remaining - count * d) in
      (if count =? 0 then bd else (d, count) :: bd, rest)
  end.

(** Modelled from the spec: step 1 of [billCalc], "Round the exact payout
    to the nearest cent (standard half-up rounding) to get a rounded
    cent-integer amount", in cents. *)
Definition round_to_cents (payout : number) : Z :=
  Qfloor (to_Q payout * 100 + (1 # 2))%Q.

(** Modelled from the spec: [roundAndCalculateBills] (client/src/lib/billCalc):
    the rounded amount in cents and its bill breakdown, or a failure
    ("Fails with NegativePayout if the input payout is negative; fails with
    NonFiniteInput if NaN/inf"). *)
Definition roundAndCalculateBills (payout : number)
  : RoundError + (Z * list (Z * Z)) :=
  if negb (isFinite payout) then inl NonFiniteInput
  else if ltb payout zero then inl NegativePayout
  else
    let rounded := round_to_cents payout in
    inr (rounded, fst (greedy denominations rounded)).

(** ** The [/api/distributions/calculate] route *)

Record PartnerPayout : Type := mkPartnerPayout {
  pp_name : string;
  pp_hours : number;
  pp_payout : number;
  pp_rounded : Z;                  (* cents *)
  pp_billBreakdown : list (Z * Z)  (* (denomination in cents, count) *)
}.

Record Distribution : Type := mkDistribution {
  d_totalAmount : number;
  d_totalHours : number;
  d_hourlyRate : number;
  d_partnerPayouts : list PartnerPayout
}.

(** The fields read from [req.body]; [partnerHours] is [None] when it is
    not an array. *)
Record CalcRequest : Type := mkCalcRequest {
  partnerHours : option (list PartnerHours);
  totalAmount : number;
  totalHours : number;
  hourlyRate : number
}.

(** What the handler does: a distribution sent with status 200, or an
    error status with its message. *)
Inductive CalcOutcome : Type :=
| CalcOk (d : Distribution)
| CalcErr (status : Z) (msg : string).

Definition msg_empty : string := "Partner hours data is missing or empty".
Definition msg_amount : string := "Total amount must be a positive number".
Definition msg_hours : string := "Total hours must be a positive number".
Definition msg_rate : string := "Hourly rate must be a positive number".
Definition msg_schema : string := "Invalid partner hours data".

Definition round_error_message (e : RoundError) : string :=
  match e with
  | NegativePayout => "NegativePayout"
  | NonFiniteInput => "NonFiniteInput"
  end.

(** The callback of [partnerHours.map]. *)
Definition payout_of (hourlyRate : number) (partner : PartnerHours)
  : exc PartnerPayout :=
  let payout := calculatePayout (ph_hours partner) hourlyRate in
  if negb (isFinite payout) || ltb payout zero then
    Throw ("Invalid payout calculation for partner " ++ ph_name partner)
  else
    match roundAndCalculateBills payout with
    | inl e => Throw (round_error_message e)
    | inr (rounded, billBreakdown) =>
        Ret (mkPartnerPayout (ph_name partner) (ph_hours partner)
                             payout rounded billBreakdown)
    end.

Definition calculate (req : CalcRequest) : CalcOutcome :=
  match partnerHours req with
  | None | Some [] => CalcErr 400 msg_empty
  | Some ps =>
      if leb (totalAmount req) zero || negb (isFinite (totalAmount req))
      then CalcErr 400 msg_amount
      else if leb (totalHours req) zero || negb (isFinite (totalHours req))
      then CalcErr 400 msg_hours
      else if leb (hourlyRate req) zero || negb (isFinite (hourlyRate req))
      then CalcErr 400 msg_rate
      else if negb (partnerHoursSchema_parse ps)
      then CalcErr 400 msg_schema
      else
        match mapM (payout_of (hourlyRate req)) ps with
        | Throw m => CalcErr 500 m
        | Ret partnerPayouts =>
            CalcOk (mkDistribution (totalAmount req) (totalHours req)
                                   (hourlyRate req) partnerPayouts)
        end
  end.

(** The JSON form of a rounded amount in cents: the number nearest to
    [cents / 100]. *)
Definition cents_to_number (cents : Z) : number := div (of_Z cents) (of_Z 100).

Definition denomination_key (d : Z) : string :=
  NilEmpty.string_of_uint (N.to_uint (Z.to_N d)).

Definition partnerPayout_json (p : PartnerPayout) : json :=
  JObj [("name", JStr (pp_name p));
        ("hours", JNum (pp_hours p));
        ("payout", JNum (pp_payout p));
        ("rounded", JNum (cents_to_number (pp_rounded p)));
        ("billBreakdown",
          JObj (map (fun '(d, c) => (denomination_key d, JNum (of_Z c)))
                    (pp_billBreakdown p)))].

(** [res.json(distributionData)] with
    [distributionData = { totalAmount, totalHours, hourlyRate, partnerPayouts }]. *)
Definition distribution_json (d : Distribution) : json :=
  JObj [("totalAmount", JNum (d_totalAmount d));
        ("totalHours", JNum (d_totalHours d));
        ("hourlyRate", JNum (d_hourlyRate d));
        ("partnerPayouts", JArr (map partnerPayout_json (d_partnerPayouts d)))].

(** The route: [res.json(...)] or [res.status(s).json({ error })]. *)
Definition calculate_route (req : CalcRequest) : response :=
  match calculate req with
  | CalcOk d => Respond 200 (distribution_json d)
  | CalcErr s m => Respond s (JObj [("error", JStr m)])
  end.

(** Keys of a JSON object. *)
Definition json_keys (j : json) : list string :=
  match j with
  | JObj fs => map fst fs
  | _ => []
  end.

(** ** Properties used in the statements *)

(** The core's error kinds, read off the handler's 400 responses: the
    missing-or-empty message is [EmptyInput], every other 400 response is
    [InvalidInput]. *)
Inductive CoreError : Type :=
| InvalidInput
| EmptyInput.

Definition core_error (o : CalcOutcome) : option CoreError :=
  match o with
  | CalcErr 400 m => Some (if String.eqb m msg_empty then EmptyInput else InvalidInput)
  | _ => None
  end.

(** [x <= 0], or [x] is NaN or infinite. *)
Definition nonpositive_or_nonfinite (x : number) : Prop :=
  match x with
  | S754_finite s _ _ => s = true
  | S754_zero _ | S754_infinity _ | S754_nan => True
  end.

(** [x > 0] and finite. *)
Definition positive_finite (x : number) : Prop :=
  match x with
  | S754_finite false _ _ => True
  | _ => False
  end.

(** [x >= 0] and finite ([-0] included). *)
Definition nonnegative_finite (x : number) : Prop :=
  match x with
  | S754_zero _ | S754_finite false _ _ => True
  | _ => False
  end.

(** A finite negative number. *)
Definition negative (x : number) : Prop :=
  match x with
  | S754_finite true _ _ => True
  | _ => False
  end.

(** NaN or an infinity. *)
Definition nonfinite (x : number) : Prop :=
  match x with
  | S754_nan | S754_infinity _ => True
  | _ => False
  end.

(** Sum of [denomination * count] over a bill breakdown. *)
Definition reconstruct (bd : list (Z * Z)) : Z :=
  fold_right (fun '(d, c) acc => d * c + acc) 0 bd.

(** Exact sum of [hours * hourlyRate] over the partners. *)
Definition sum_hours_times_rate (ps : list PartnerHours) (rate : number) : Q :=
  fold_right (fun p acc => to_Q (ph_hours p) * to_Q rate + acc)%Q 0%Q ps.

(** Exact sums of the payouts and of the rounded amounts (in dollars). *)
Definition sum_payout (pps : list PartnerPayout) : Q :=
  fold_right (fun pp acc => to_Q (pp_payout pp) + acc)%Q 0%Q pps.

Definition sum_rounded (pps : list PartnerPayout) : Q :=
  fold_right (fun pp acc => inject_Z (pp_rounded pp) * (1 # 100) + acc)%Q 0%Q pps.

(** Half the smallest denomination, in dollars. *)
Definition half_smallest_denomination : Q := 1 # 200.

(** The spec's scenario: [totalAmount=100], [A] 10 h, [B] 30 h, rate 2.5. *)
Definition req_scenario : CalcRequest :=
  mkCalcRequest (Some [mkPartnerHours "A" (of_Z 10); mkPartnerHours "B" (of_Z 30)])
                (of_Z 100) (of_Z 40) (div (of_Z 5) (of_Z 2)).

(** [totalAmount=100], [totalHours=40], [hourlyRate=2.5] (which is
    [totalAmount / totalHours]), one partner [A] with 10 hours. *)
Definition req_unchecked : CalcRequest :=
  mkCalcRequest (Some [mkPartnerHours "A" (of_Z 10)])
                (of_Z 100) (of_Z 40) (div (of_Z 5) (of_Z 2)).

(** [totalAmount=0]. *)
Definition req_zero_amount : CalcRequest :=
  mkCalcRequest (Some [mkPartnerHours "A" (of_Z 10)])
                zero (of_Z 10) (of_Z 2).

(** ** The OCR text parser [extractPartnerHours]

    JavaScript strings are sequences of UTF-16 code units. *)
Module Parser.

Definition jschar := N.
Definition jsstring := list jschar.

(** An ASCII string literal as a JavaScript string. *)
Definition js (s : string) : jsstring := map N_of_ascii (list_ascii_of_string s).

(** Line terminators: [\n], [\r], U+2028, U+2029 (what [.] does not match). *)
Definition is_line_terminator (c : jschar) : bool :=
  (c =? 10)%N || (c =? 13)%N || (c =? 8232)%N || (c =? 8233)%N.

(** WhiteSpace and LineTerminator code units: what [\s] matches and
    [String.prototype.trim] removes. *)
Definition is_ws (c : jschar) : bool :=
  is_line_terminator c || (c =? 9)%N || (c =? 11)%N || (c =? 12)%N ||
  (c =? 32)%N || (c =? 160)%N || (c =? 5760)%N ||
  ((8192 <=? c)%N && (c <=? 8202)%N) || (c =? 8239)%N || (c =? 8287)%N ||
  (c =? 12288)%N || (c =? 65279)%N.

(** [\d] *)
Definition is_digit (c : jschar) : bool := (48 <=? c)%N && (c <=? 57)%N.

(** The class [[:−\-]]: colon, U+2212 minus sign, hyphen-minus. *)
Definition is_sep (c : jschar) : bool := (c =? 58)%N || (c =? 8722)%N || (c =? 45)%N.

(** [.] *)
Definition is_dot (c : jschar) : bool := negb (is_line_terminator c).

(** [text.split('\n')] *)
Fixpoint split_nl_aux (s : jsstring) (cur : jsstring) : list jsstring :=
  match s with
  | [] => [rev cur]
  | c :: s' => if (c =? 10)%N then rev cur :: split_nl_aux s' [] else split_nl_aux s' (c :: cur)
  end.

Definition split_nl (s : jsstring) : list jsstring := split_nl_aux s [].

Fixpoint drop_ws (s : jsstring) : jsstring :=
  match s with
  | c :: s' => if is_ws c then drop_ws s' else s
  | [] => []
  end.

(** [s.trim()] *)
Definition trim (s : jsstring) : jsstring := rev (drop_ws (rev (drop_ws s))).

(** Greedy [\d*]: the digits taken and the rest. *)
Fixpoint take_digits (s : jsstring) : jsstring * jsstring :=
  match s with
  | c :: s' => if is_digit c then let '(ds, r) := take_digits s' in (c :: ds, r) else ([], s)
  | [] => ([], [])
  end.

(** [\s*(\d+(?:\.\d+)?)] at the start of [s]: the text of group 2. *)
Definition number_after (s : jsstring) : option jsstring :=
  let '(ds, r) := take_digits (drop_ws s) in
  match ds with
  | [] => None
  | _ =>
      match r with
      | c :: r' =>
          if (c =? 46)%N then
            match take_digits r' with
            | ([], _) => Some ds
            | (fs, _) => Some (app ds (c :: fs))
            end
          else Some ds
      | [] => Some ds
      end
  end.

(** The lazy [(.+?)] followed by a separator and a number: [name_rev] is
    what group 1 holds so far (reversed, at least one code unit). *)
Fixpoint match_from (name_rev : jsstring) (rest : jsstring)
  : option (jsstring * jsstring) :=
  match rest with
  | [] => None
  | c :: rest' =>
      match (if is_sep c then number_after rest' else None) with
      | Some num => Some (rev name_rev, num)
      | None => if is_dot c then match_from (c :: name_rev) rest' else None
      end
  end.

(** [s.match(/^(.+?)[:−\-]\s*(\d+(?:\.\d+)?)/)]: groups 1 and 2. *)
Definition regex_match (s : jsstring) : option (jsstring * jsstring) :=
  match s with
  | c :: rest => if is_dot c then match_from [c] rest else None
  | [] => None
  end.

Definition digit_value (c : jschar) : Z := Z.of_N c - 48.

Definition digits_value (ds : jsstring) : Z :=
  fold_left (fun acc c => acc * 10 + digit_value c) ds 0.

(** [parseFloat] on the text of group 2 ([d+] or [d+.d+]): the number
    nearest to its decimal value [D / 10^k], rounded to nearest-even. *)
Definition parseFloat (num : jsstring) : number :=
  let '(ip, r) := take_digits num in
  let fp := match r with _ :: f => f | [] => [] end in
  let k := Z.of_nat (List.length fp) in
  match digits_value (app ip fp) with
  | Zpos m =>
      let '(mz, ez, lz) := SFdiv_core_binary prec emax (Zpos m) 0 (5 ^ k) k in
      binary_round_aux prec emax false mz ez lz
  | _ => S754_zero false
  end.

(** The body of the [for (const line of lines)] loop: the entry pushed
    for [line], if any. *)
Definition line_entry (line : jsstring) : option (jsstring * number) :=
  let trimmedLine := trim line in
  match trimmedLine with
  | [] => None
  | _ =>
      match regex_match trimmedLine with
      | None => None
      | Some (raw, num) =>
          let name := trim raw in
          let hours := parseFloat num in
          match name with
          | [] => None
          | _ => if negb (isNaN hours) && ltb zero hours
                 then Some (name, hours) else None
          end
      end
  end.

(** [extractPartnerHours]: the loop pushing onto [partnerHours]. *)
Definition extractPartnerHours (text : jsstring) : list (jsstring * number) :=
  fold_left (fun acc line =>
               match line_entry line with
               | Some e => app acc [e]
               | None => acc
               end)
            (split_nl text) [].

(** The entry a matching line denotes: trimmed group 1 and the parsed
    group 2, whatever the value. *)
Definition matched_entry (line : jsstring) : list (jsstring * number) :=
  match regex_match (trim line) with
  | Some (raw, num) => [(trim raw, parseFloat num)]
  | None => []
  end.

(** The same, keeping only entries whose number is greater than 0. *)
Definition positive_entry (line : jsstring) : list (jsstring * number) :=
  match regex_match (trim line) with
  | Some (raw, num) =>
      if ltb zero (parseFloat num) then [(trim raw, parseFloat num)] else []
  | None => []
  end.

(** Group 2's shape: [\d+] or [\d+\.\d+]. *)
Definition is_decimal (num : jsstring) : Prop :=
  exists ds fs, ds <> [] /\ forallb is_digit ds = true /\ forallb is_digit fs = true /\
    (num = ds \/ (fs <> [] /\ num = app ds (46%N :: fs))).

End Parser.

(** ** The Gemini client [analyzeImage] *)
Module Gemini.

(** [part.text] ([text?: string]). *)
Record GeminiPart : Type := mkPart { part_text : option string }.

(** [candidate.content.parts]; [None] when [content] or [parts] is
    missing, so that reading it throws a [TypeError]. *)
Record GeminiCandidate : Type := mkCandidate { cand_parts : option (list GeminiPart) }.

(** [data.candidates]; [None] when absent. *)
Record GeminiResponse : Type := mkResponse { candidates : option (list GeminiCandidate) }.

(** What [fetch] resolves to: [response.ok], [response.status], and the
    outcomes of [response.text()] and [response.json()] (which may throw). *)
Record FetchResponse : Type := mkFetchResponse {
  ok : bool;
  status : Z;
  text_body : exc string;
  json_body : exc GeminiResponse
}.

(** [{ text: string | null; error?: string }] *)
Record AnalyzeResult : Type := mkResult {
  text : option string;
  error : option string
}.

Definition msg_key_missing : string :=
  "API key missing. Please configure the Gemini API key.".
Definition msg_bad_request : string :=
  "Bad request to Gemini API. Check your API key permissions and image format.".
Definition msg_auth : string :=
  "Authentication error. Your Gemini API key may be invalid or missing Vision API permissions.".
Definition msg_quota : string :=
  "Gemini API quota exceeded. Please try again later or check your API key limits.".
Definition msg_no_text : string :=
  "No text extracted from the image. Try a clearer image or manual entry.".
Definition msg_unexpected : string :=
  "An unexpected error occurred while processing the image.".
Definition msg_call_failed : string := "Failed to call Gemini API".

Definition apiUrl : string :=
  "https://generativelanguage.googleapis.com/v1/models/gemini-1.5-pro:generateContent".

(** [a || b] on strings: [undefined] and [""] are falsy. *)
Definition or_else (a : option string) (b : string) : string :=
  match a with
  | Some s => if String.eqb s "" then b else s
  | None => b
  end.

(** [[a-zA-Z0-9-_]] *)
Definition is_key_char (c : ascii) : bool :=
  let n := nat_of_ascii c in
  (Nat.leb 97 n && Nat.leb n 122) || (Nat.leb 65 n && Nat.leb n 90) ||
  (Nat.leb 48 n && Nat.leb n 57) || Nat.eqb n 45 || Nat.eqb n 95.

(** Greedy [[a-zA-Z0-9-_]*]. *)
Fixpoint take_key (s : string) : string * string :=
  match s with
  | String c s' =>
      if is_key_char c then let '(k, r) := take_key s' in (String c k, r)
      else (EmptyString, s)
  | EmptyString => (EmptyString, EmptyString)
  end.

(** [s.replace(/api_key:[a-zA-Z0-9-_]+/, "api_key:[REDACTED]")]: the
    leftmost match only. *)
Fixpoint redact (s : string) : string :=
  match s with
  | EmptyString => EmptyString
  | String c s' =>
      let here :=
        if String.prefix "api_key:" s then
          match take_key (substring 8 (String.length s) s) with
          | (EmptyString, _) => None
          | (_, after) => Some ("api_key:[REDACTED]" ++ after)
          end
        else None in
      match here with
      | Some r => r
      | None => String c (redact s')
      end
  end.

(** [`${n}`] for an integer. *)
Definition string_of_Z (z : Z) : string := NilZero.string_of_int (Z.to_int z).

(** [parts.map(part => part.text).filter(Boolean).join("\n")] *)
Definition join_texts (parts : list GeminiPart) : string :=
  concat (String (ascii_of_nat 10) EmptyString)
    (filter (fun t => negb (String.eqb t ""))
       (flat_map (fun p => match part_text p with Some t => [t] | None => [] end) parts)).

Section AnalyzeImage.
(** [process.env] *)
Variable env : string -> option string.
(** [fetch(url, { method: "POST", body })], given the URL and the image. *)
Variable fetch : string -> string -> exc FetchResponse.
(** [JSON.parse(errorText)] followed by [errorData.error?.message]:
    [None] when the parse or the property access throws, otherwise the
    message if present. *)
Variable parse_error_message : string -> option (option string).

(** The [try] block of [analyzeImage]. *)
Definition analyzeImage_try (imageBase64 : string) : exc AnalyzeResult :=
  let apiKey := or_else (env "GEMINI_API_KEY")
                        (or_else (env "NETLIFY_GEMINI_API_KEY") "") in
  if String.eqb apiKey "" then Ret (mkResult None (Some msg_key_missing))
  else
    response <- fetch (apiUrl ++ "?key=" ++ apiKey) imageBase64 ;;
    if negb (ok response) then
      errorText <- text_body response ;;
      let errorMessage :=
        match parse_error_message errorText with
        | Some (Some m) => if String.eqb m "" then msg_call_failed else redact m
        | _ => msg_call_failed
        end in
      if status response =? 400 then Ret (mkResult None (Some msg_bad_request))
      else if status response =? 403 then Ret (mkResult None (Some msg_auth))
      else if status response =? 429 then Ret (mkResult None (Some msg_quota))
      else Ret (mkResult None (Some ("API Error (" ++ string_of_Z (status response)
                                     ++ "): " ++ errorMessage)))
    else
      data <- json_body response ;;
      match candidates data with
      | None | Some [] => Ret (mkResult None (Some msg_no_text))
      | Some (c :: _) =>
          parts <- match cand_parts c with
                   | Some ps => Ret ps
                   | None => Throw "TypeError: Cannot read properties of undefined"
                   end ;;
          let extractedText := join_texts parts in
          if String.eqb extractedText "" then Ret (mkResult None (Some msg_no_text))
          else Ret (mkResult (Some extractedText) None)
      end.

(** [analyzeImage]: the [try] block with its [catch]. *)
Definition analyzeImage (imageBase64 : string) : exc AnalyzeResult :=
  match analyzeImage_try imageBase64 with
  | Ret r => Ret r
  | Throw _ => Ret (mkResult None (Some msg_unexpected))
  end.
End AnalyzeImage.

(** The outcome the claim describes: a failure with [text = null] and a
    non-empty error, or a non-empty text. *)
Definition well_formed_result (r : AnalyzeResult) : Prop :=
  (text r = None /\ exists e, error r = Some e /\ e <> "") \/
  (exists t, text r = Some t /\ t <> "").

End Gemini.

(** The distribution computed for [req_scenario]. *)
Definition dist_scenario : Distribution :=
  Eval vm_compute in
  match calculate req_scenario with
  | CalcOk d => d
  | CalcErr _ _ => mkDistribution zero zero zero []
  end.

(** ** [formatOCRResult] *)
Module Format.
Import Parser.

(** [lines.join('\n')] *)
Fixpoint join_nl (lines : list jsstring) : jsstring :=
  match lines with
  | [] => []
  | [l] => l
  | l :: ls => app l (10%N :: join_nl ls)
  end.

(** [text.split('\n').map(line => line.trim()).filter(line => line.length > 0).join('\n')] *)
Definition formatOCRResult (text : jsstring) : jsstring :=
  join_nl (filter (fun line => Nat.ltb 0 (List.length line)) (map trim (split_nl text))).

End Format.

(** ** The in-memory partners API ([api/partners.js]) *)
Module Partners.
Import Parser.

(** A JavaScript value, as far as the handler inspects [req.body.name]. *)
Inductive value : Type :=
  | VUndefined
  | VNull
  | VBool (b : bool)
  | VNumber (x : number)
  | VString (s : jsstring)
  | VObject.

(** JavaScript truthiness: [!v] is [negb (truthy v)]. *)
Definition truthy (v : value) : bool :=
  match v with
  | VUndefined | VNull => false
  | VBool b => b
  | VNumber x => negb (isNaN x) && match x with S754_zero _ => false | _ => true end
  | VString s => negb (Nat.eqb (List.length s) 0)
  | VObject => true
  end.

(** [typeof v === 'string'] *)
Definition is_string (v : value) : bool :=
  match v with VString _ => true | _ => false end.

(** [{ ...insertPartner, id }] with [insertPartner = { name }]. Ids are
    exact integers (JavaScript counts them exactly up to 2^53). *)
Record Partner : Type := mkPartner { name : jsstring; id : Z }.

(** The module state: [let partners = []] and [let partnerId = 1]. *)
Record Store : Type := mkStore { partners : list Partner; partnerId : Z }.

Definition initial_store : Store := mkStore [] 1.

Definition getPartners (st : Store) : list Partner := partners st.

(** [createPartner]: [const id = partnerId++], then [partners.push(partner)]. *)
Definition createPartner (insertName : jsstring) (st : Store) : Partner * Store :=
  let id := partnerId st in
  let partner := mkPartner insertName id in
  (partner, mkStore (app (partners st) [partner]) (id + 1)).

(** [req.method] and [req.body]; the body is [None] when it is
    [undefined] (destructuring it throws), otherwise its properties. *)
Record Request : Type := mkRequest {
  method : string;
  body : option (list (string * value))
}.

(** [o[k]] *)
Definition prop (o : list (string * value)) (k : string) : value :=
  match find (fun kv => String.eqb (fst kv) k) o with
  | Some (_, v) => v
  | None => VUndefined
  end.

Inductive Body : Type :=
  | BPartners (ps : list Partner)
  | BPartner (p : Partner)
  | BError (error : string).

(** [res.status(status).json(body)]; [res.json] alone has status 200. *)
Record Reply : Type := mkReply { status : Z; reply_body : Body }.

Definition msg_name_required : string := "Partner name is required".
Definition msg_method : string := "Method not allowed".
Definition msg_retrieve : string := "Failed to retrieve partners".
Definition msg_create : string := "Failed to create partner".

(** The [try] block of [handler]. A throw can only come from
    destructuring the body, before the store is touched. *)
Definition handler_try (req : Request) (st : Store) : exc (Reply * Store) :=
  if String.eqb (method req) "GET" then
    let partnersList := getPartners st in
    Ret (mkReply 200 (BPartners partnersList), st)
  else if String.eqb (method req) "POST" then
    b <- match body req with
         | Some b => Ret b
         | None => Throw "TypeError: Cannot destructure property 'name' of 'req.body'"
         end ;;
    let nm := prop b "name" in
    let invalid :=
      negb (truthy nm) || negb (is_string nm) ||
      match nm with VString s => match trim s with [] => true | _ => false end | _ => false end in
    if invalid then Ret (mkReply 400 (BError msg_name_required), st)
    else
      match nm with
      | VString s =>
          let '(partner, st') := createPartner (trim s) st in
          Ret (mkReply 201 (BPartner partner), st')
      | _ => Ret (mkReply 400 (BError msg_name_required), st)
      end
  else Ret (mkReply 405 (BError msg_method), st).

(** [handler]: the [try] block with its [catch]. *)
Definition handler (req : Request) (st : Store) : Reply * Store :=
  match handler_try req st with
  | Ret r => r
  | Throw _ =>
      (mkReply 500 (BError (if String.eqb (method req) "GET" then msg_retrieve else msg_create)), st)
  end.

(** Requests handled one after the other by the same module instance. *)
Fixpoint run (reqs : list Request) (st : Store) : list Reply * Store :=
  match reqs with
  | [] => ([], st)
  | r :: rs =>
      let '(rep, st1) := handler r st in
      let '(reps, st2) := run rs st1 in
      (rep :: reps, st2)
  end.

(** The partners returned by the replies, in order. *)
Definition created (reps : list Reply) : list Partner :=
  flat_map (fun r => match reply_body r with BPartner p => [p] | _ => [] end) reps.

(** The store shape the handler maintains: ids [1..n] in order, the next
    id [n + 1], every name non-empty and trimmed. *)
Definition store_ok (st : Store) : Prop :=
  map id (partners st) = map Z.of_nat (seq 1 (List.length (partners st))) /\
  partnerId st = Z.of_nat (List.length (partners st)) + 1 /\
  Forall (fun p => name p <> [] /\ trim (name p) = name p) (partners st).

End Partners.

(** ** The OCR route of [registerRoutes] *)
Module OcrRoute.
Import Parser.

Inductive OcrBody : Type :=
  | OcrText (extractedText : jsstring) (partnerHours : list (jsstring * number))
  | OcrError (error : string) (details : option string) (suggestManualEntry : option bool).

Definition msg_no_file : string := "No image file provided".
Definition msg_no_extract : string := "Failed to extract text from image".
Definition msg_process : string := "Failed to process the image. Please try manual entry instead.".

Section Route.
(** The environment, [fetch] and error-body parser that [analyzeImage] uses. *)
Variable env : string -> option string.
Variable fetch : string -> string -> exc Gemini.FetchResponse.
Variable parse_error_message : string -> option (option string).
(** The route's [extractPartnerHours] and [formatOCRResult] are imported
    from [client/src/lib/formatUtils], which is not part of the sources:
    they are left as arbitrary functions, which may throw. *)
Variable formatUtils_extractPartnerHours : jsstring -> exc (list (jsstring * number)).
Variable formatUtils_formatOCRResult : jsstring -> exc jsstring.
(** The uploaded file ([req.file]) and [req.file.buffer.toString("base64")]. *)
Variable File : Type.
Variable base64 : File -> string.

(** The [try] block of the [/api/ocr] handler; [result.text] is read as
    code units. *)
Definition ocr_try (file : option File) : exc (Z * OcrBody) :=
  match file with
  | None => Ret (400, OcrError msg_no_file None None)
  | Some f =>
      let imageBase64 := base64 f in
      result <- Gemini.analyzeImage env fetch parse_error_message imageBase64 ;;
      match Gemini.text result with
      | Some t =>
          if String.eqb t "" then
            Ret (500, OcrError (Gemini.or_else (Gemini.error result) msg_no_extract) None (Some true))
          else
            partnerHours <- formatUtils_extractPartnerHours (js t) ;;
            formattedText <- formatUtils_formatOCRResult (js t) ;;
            Ret (200, OcrText formattedText partnerHours)
      | None =>
          Ret (500, OcrError (Gemini.or_else (Gemini.error result) msg_no_extract) None (Some true))
      end
  end.

(** The handler: the [try] block with its [catch]. *)
Definition ocr_route (file : option File) : Z * OcrBody :=
  match ocr_try file with
  | Ret r => r
  | Throw m => (500, OcrError msg_process (Some m) (Some true))
  end.
End Route.

(** The copy of [analyzeImage] in [index.css] has the body of the one in
    [api/gemini] but reads only [GEMINI_API_KEY]: it is [analyzeImage]
    under an environment without [NETLIFY_GEMINI_API_KEY]. *)
Definition gemini_only_env (env : string -> option string) : string -> option string :=
  fun k => if String.eqb k "NETLIFY_GEMINI_API_KEY" then None else env k.

Definition msg_method : string := "Method not allowed".

Section Handler.
Variable env : string -> option string.
Variable fetch : string -> string -> exc Gemini.FetchResponse.
Variable parse_error_message : string -> option (option string).
Variable File : Type.
Variable base64 : File -> string.

(** The serverless [handler] of [index.css]. [upload] is the outcome of
    [runMiddleware(req, res, upload.single('image'))]: [req.file], or the
    error multer rejects with. After it, the [try] block has the body of
    the one of the [/api/ocr] route, with the local [analyzeImage],
    [extractPartnerHours] and [formatOCRResult] of [index.css]. *)
Definition handler (method : string) (upload : exc (option File)) : Z * OcrBody :=
  if negb (String.eqb method "POST") then (405, OcrError msg_method None None)
  else
    match (file <- upload ;;
           ocr_try (gemini_only_env env) fetch parse_error_message
                   (fun t => Ret (extractPartnerHours t)) (fun t => Ret (Format.formatOCRResult t))
                   File base64 file) with
    | Ret r => r
    | Throw m => (500, OcrError msg_process (Some m) (Some true))
    end.
End Handler.

End OcrRoute.

(** ** Matches of the redaction pattern *)
Module Redaction.
Import Gemini.

(** [/api_key:[a-zA-Z0-9-_]+/] matches at the start of [s]. *)
Definition key_match_at (s : string) : bool :=
  String.prefix "api_key:" s &&
  match String.get 8 s with Some c => is_key_char c | None => false end.

(** No match of the pattern starts inside [p] when [p] precedes [s]. *)
Fixpoint no_match_within (p s : string) : bool :=
  match p with
  | EmptyString => true
  | String _ p' => negb (key_match_at (p ++ s)) && no_match_within p' s
  end.

(** Every character of [k] is in [[a-zA-Z0-9-_]]. *)
Fixpoint key_chars (k : string) : bool :=
  match k with
  | EmptyString => true
  | String c k' => is_key_char c && key_chars k'
  end.

End Redaction.

(** ** Lemmas about the handler *)

Lemma calculate_err_status req s m :
  calculate req = CalcErr s m -> s = 400 \/ s = 500.
Proof.
  unfold calculate.
  destruct (partnerHours req) as [[|p ps]|]; intro H;
    try (injection H; intros; subst; auto; fail).
  repeat match type of H with
  | context [if ?c then _ else _] => destruct c
  end;
  try (injection H; intros; subst; auto; fail).
  destruct (mapM _ _); [discriminate | injection H; intros; subst; auto].
Qed.

Lemma mapM_Forall2 {A B : Type} (f : A -> exc B) l l' :
  mapM f l = Ret l' -> Forall2 (fun a b => f a = Ret b) l l'.
Proof.
  revert l'; induction l as [|a l IH]; intros l' H; simpl in H.
  - injection H as <-. constructor.
  - destruct (f a) as [b|] eqn:Ef; [|discriminate]. simpl in H.
    destruct (mapM f l) as [bs|] eqn:Em; [|discriminate]. simpl in H.
    injection H as <-. constructor; auto.
Qed.

Lemma payout_of_Ret rate ph pp :
  payout_of rate ph = Ret pp ->
  pp_name pp = ph_name ph /\ pp_hours pp = ph_hours ph /\
  pp_payout pp = calculatePayout (ph_hours ph) rate /\
  isFinite (pp_payout pp) = true /\ ltb (pp_payout pp) zero = false /\
  roundAndCalculateBills (pp_payout pp) = inr (pp_rounded pp, pp_billBreakdown pp).
Proof.
  unfold payout_of.
  destruct (negb (isFinite (calculatePayout (ph_hours ph) rate))
            || ltb (calculatePayout (ph_hours ph) rate) zero) eqn:G;
    [discriminate|].
  apply orb_false_iff in G as [G1 G2]. apply negb_false_iff in G1.
  destruct (roundAndCalculateBills _) as [e|[r bd]] eqn:R; [discriminate|].
  intro H. injection H as <-. simpl. repeat split; auto.
Qed.

Lemma calculate_ok_inv req d :
  calculate req = CalcOk d ->
  exists ps, partnerHours req = Some ps /\ ps <> [] /\
    (leb (totalAmount req) zero || negb (isFinite (totalAmount req))) = false /\
    (leb (totalHours req) zero || negb (isFinite (totalHours req))) = false /\
    (leb (hourlyRate req) zero || negb (isFinite (hourlyRate req))) = false /\
    partnerHoursSchema_parse ps = true /\
    mapM (payout_of (hourlyRate req)) ps = Ret (d_partnerPayouts d) /\
    d_totalAmount d = totalAmount req /\ d_totalHours d = totalHours req /\
    d_hourlyRate d = hourlyRate req.
Proof.
  unfold calculate. intro H.
  destruct (partnerHours req) as [[|p ps]|]; try discriminate.
  destruct (leb (totalAmount req) zero || negb (isFinite (totalAmount req))) eqn:E1;
    [discriminate|].
  destruct (leb (totalHours req) zero || negb (isFinite (totalHours req))) eqn:E2;
    [discriminate|].
  destruct (leb (hourlyRate req) zero || negb (isFinite (hourlyRate req))) eqn:E3;
    [discriminate|].
  destruct (partnerHoursSchema_parse (p :: ps)) eqn:E4; [|discriminate].
  destruct (mapM (payout_of (hourlyRate req)) (p :: ps)) as [pps|] eqn:E5;
    [|discriminate].
  injection H as <-.
  exists (p :: ps). repeat split; auto. discriminate.
Qed.

Lemma nonpositive_or_nonfinite_guard x :
  nonpositive_or_nonfinite x -> (leb x zero || negb (isFinite x)) = true.
Proof.
  destruct x as [s|[|]| |[|] m e]; simpl; intro H; try reflexivity; discriminate.
Qed.

Lemma nonpositive_or_nonfinite_schema ps :
  Exists (fun p => nonpositive_or_nonfinite (ph_hours p)) ps ->
  partnerHoursSchema_parse ps = false.
Proof.
  induction 1 as [p ps H|p ps _ IH]; simpl.
  - destruct (ph_hours p) as [s|s| |s m e]; simpl in *;
      try (subst s); rewrite ?andb_false_r; reflexivity.
  - rewrite IH. apply andb_false_r.
Qed.

Lemma positive_finite_guard x :
  positive_finite x -> (leb x zero || negb (isFinite x)) = false.
Proof.
  destruct x as [s|s| |[|] m e]; simpl; intro H; try contradiction; reflexivity.
Qed.

(** ** Lemmas about the Bill Rounder *)

Lemma greedy_reconstruct ds r :
  reconstruct (fst (greedy ds r)) + snd (greedy ds r) = r.
Proof.
  revert r; induction ds as [|d ds IH]; intro r; simpl.
  - lia.
  - specialize (IH (r - r / d * d)).
    destruct (greedy ds (r - r / d * d)) as [bd rest]. simpl in *.
    destruct (r / d =? 0) eqn:Ez; simpl.
    + apply Z.eqb_eq in Ez. rewrite Ez in IH. lia.
    + lia.
Qed.

Lemma greedy_unit_last ds r : snd (greedy (app ds [1]) r) = 0.
Proof.
  revert r; induction ds as [|d ds IH]; intro r; simpl.
  - rewrite Z.div_1_r. destruct (r =? 0); simpl; lia.
  - specialize (IH (r - r / d * d)).
    destruct (greedy (app ds [1]) (r - r / d * d)) as [bd rest]. simpl in *.
    exact IH.
Qed.

Lemma greedy_counts_nonneg ds r :
  0 <= r -> Forall (fun d => 0 < d) ds ->
  Forall (fun dc => 0 <= snd dc) (fst (greedy ds r)).
Proof.
  intros Hr Hds; revert r Hr; induction Hds as [|d ds Hd _ IH]; intros r Hr; simpl.
  - constructor.
  - assert (Hq : 0 <= r / d) by (apply Z.div_pos; lia).
    assert (Hm : 0 <= r - r / d * d).
    { pose proof (Z.mod_pos_bound r d Hd). rewrite Z.mod_eq in H by lia. lia. }
    specialize (IH _ Hm).
    destruct (greedy ds (r - r / d * d)) as [bd rest]. simpl in *.
    destruct (r / d =? 0); simpl; auto.
Qed.

Lemma roundAndCalculateBills_inr p rounded bd :
  roundAndCalculateBills p = inr (rounded, bd) ->
  isFinite p = true /\ ltb p zero = false /\
  rounded = round_to_cents p /\ bd = fst (greedy denominations rounded).
Proof.
  unfold roundAndCalculateBills.
  destruct (isFinite p); [|discriminate].
  destruct (ltb p zero); [discriminate|].
  intro H.
  pose proof (f_equal (fun x : RoundError + (Z * list (Z * Z)) =>
                         match x with inr (r, _) => r | inl _ => 0 end) H) as H1.
  pose proof (f_equal (fun x : RoundError + (Z * list (Z * Z)) =>
                         match x with inr (_, b) => b | inl _ => [] end) H) as H2.
  cbv beta iota zeta in H1, H2. subst rounded bd. auto.
Qed.

Lemma denominations_split : denominations = app [2000; 1000; 500; 100; 25; 10; 5] [1].
Proof. reflexivity. Qed.

Lemma to_Q_nonneg x : nonnegative_finite x -> (0 <= to_Q x)%Q.
Proof.
  destruct x as [s|s| |[|] m e]; unfold nonnegative_finite; intro H; try contradiction.
  - apply Qle_refl.
  - unfold to_Q. cbv beta iota zeta. destruct e as [|e|e].
    + unfold Qle; simpl; lia.
    + change 0%Q with (inject_Z 0). rewrite <- Zle_Qle.
      apply Z.mul_nonneg_nonneg; [lia | apply Z.pow_nonneg; lia].
    + unfold Qle; simpl; lia.
Qed.

Lemma round_to_cents_nonneg x : nonnegative_finite x -> 0 <= round_to_cents x.
Proof.
  intro H. apply to_Q_nonneg in H. unfold round_to_cents.
  change 0 with (Qfloor 0). apply Qfloor_resp_le.
  lra.
Qed.

Lemma round_to_cents_half_cent x :
  (- half_smallest_denomination <=
     to_Q x - inject_Z (round_to_cents x) * (1 # 100) <= half_smallest_denomination)%Q.
Proof.
  unfold round_to_cents, half_smallest_denomination.
  set (y := (to_Q x * 100 + (1 # 2))%Q).
  pose proof (Qfloor_le y) as H1. pose proof (Qlt_floor y) as H2.
  rewrite inject_Z_plus in H2. change (inject_Z 1) with 1%Q in H2.
  set (f := inject_Z (Qfloor y)) in *. subst y.
  split; lra.
Qed.

Lemma sum_payout_rounded pps :
  Forall (fun pp => pp_rounded pp = round_to_cents (pp_payout pp)) pps ->
  (- (inject_Z (Z.of_nat (List.length pps)) * half_smallest_denomination)
     <= sum_payout pps - sum_rounded pps
     <= inject_Z (Z.of_nat (List.length pps)) * half_smallest_denomination)%Q.
Proof.
  induction 1 as [|pp pps Hpp _ IH].
  - unfold Qle; simpl; lia.
  - cbn [sum_payout sum_rounded fold_right List.length] in *.
    fold (sum_payout pps) (sum_rounded pps).
    rewrite Nat2Z.inj_succ, <- Z.add_1_r, inject_Z_plus.
    change (inject_Z 1) with 1%Q.
    pose proof (round_to_cents_half_cent (pp_payout pp)) as H.
    rewrite <- Hpp in H. unfold half_smallest_denomination in *.
    split; lra.
Qed.

(** ** Claims about the calculate-distribution route *)

(** C1 (counterexample): on the spec's own scenario the route answers
    status 200 with an object that has no [discrepancy] field. *)
Lemma C1_no_discrepancy_field :
  exists body, calculate_route req_scenario = Respond 200 body /\
               ~ In "discrepancy" (json_keys body).
Proof.
  eexists. split.
  - vm_compute. reflexivity.
  - vm_compute. intuition discriminate.
Qed.

(** C1 (amended): every distribution the route sends has exactly the
    fields totalAmount, totalHours, hourlyRate and partnerPayouts; the
    discrepancy totalAmount - sum(rounded) is not one of them. *)
Theorem calculate_route_fields req body :
  calculate_route req = Respond 200 body ->
  json_keys body = ["totalAmount"; "totalHours"; "hourlyRate"; "partnerPayouts"].
Proof.
  unfold calculate_route.
  destruct (calculate req) as [d|s m] eqn:E; intro H.
  - injection H as <-. reflexivity.
  - apply calculate_err_status in E. injection H as Hs _. lia.
Qed.

Lemma calculate_route_fields_witness :
  json_keys (match calculate_route req_scenario with Respond _ b => b end)
  = ["totalAmount"; "totalHours"; "hourlyRate"; "partnerPayouts"].
Proof.
  apply (calculate_route_fields req_scenario). vm_compute. reflexivity.
Defined.

(** C2 (counterexample): with [totalAmount=100], [totalHours=40],
    [hourlyRate=2.5] and one partner with 10 hours, every value is
    positive and finite and the request is accepted, yet the sum of
    [hours * hourlyRate] is 25, not 100. *)
Lemma C2_unchecked_rate_cex :
  ~ (forall req,
       (exists d, calculate req = CalcOk d) ->
       forall ps, partnerHours req = Some ps ->
       (Qabs (sum_hours_times_rate ps (hourlyRate req) - to_Q (totalAmount req))
          <= (1 # 1000000000) * Qabs (to_Q (totalAmount req)))%Q).
Proof.
  intro H.
  assert (A : exists d, calculate req_unchecked = CalcOk d).
  { eexists. vm_compute. reflexivity. }
  specialize (H req_unchecked A _ eq_refl).
  vm_compute in H. apply H. reflexivity.
Qed.

(** C2 (amended): the handler never relates hourlyRate to totalAmount or
    totalHours (nor totalHours to the partners' hours): the partner
    payouts it computes depend on the partners and the supplied
    hourlyRate only, so replacing totalAmount and totalHours by any other
    positive finite numbers leaves them unchanged. *)
Theorem calculate_payouts_ignore_totals req d ta' th' :
  calculate req = CalcOk d ->
  positive_finite ta' -> positive_finite th' ->
  calculate (mkCalcRequest (partnerHours req) ta' th' (hourlyRate req))
  = CalcOk (mkDistribution ta' th' (d_hourlyRate d) (d_partnerPayouts d)).
Proof.
  intros H Ha Hh.
  destruct (calculate_ok_inv req d H)
    as (ps & Eps & Hne & _ & _ & E3 & E4 & E5 & _ & _ & Er).
  unfold calculate; cbn [partnerHours totalAmount totalHours hourlyRate].
  rewrite Eps. destruct ps as [|p ps]; [congruence|].
  rewrite (positive_finite_guard _ Ha), (positive_finite_guard _ Hh), E3, E4.
  cbn [negb]. rewrite E5, Er. reflexivity.
Qed.

Lemma calculate_payouts_ignore_totals_witness :
  calculate (mkCalcRequest (partnerHours req_scenario) (of_Z 7) (of_Z 3)
                           (hourlyRate req_scenario))
  = CalcOk (mkDistribution (of_Z 7) (of_Z 3) (d_hourlyRate dist_scenario)
                           (d_partnerPayouts dist_scenario)).
Proof.
  apply calculate_payouts_ignore_totals.
  - vm_compute. reflexivity.
  - exact I.
  - exact I.
Defined.

(** C3: with a missing or empty partner list the handler fails with
    [EmptyInput]; with a non-empty list and totalAmount <= 0, totalHours
    <= 0 or some partner's hours <= 0 (each also when NaN or infinite) it
    fails with [InvalidInput]; in both cases no distribution is produced. *)
Theorem calculate_rejects_invalid req :
  ((partnerHours req = None \/ partnerHours req = Some []) ->
     core_error (calculate req) = Some EmptyInput) /\
  (forall ps, partnerHours req = Some ps -> ps <> [] ->
     nonpositive_or_nonfinite (totalAmount req) \/
     nonpositive_or_nonfinite (totalHours req) \/
     Exists (fun p => nonpositive_or_nonfinite (ph_hours p)) ps ->
     core_error (calculate req) = Some InvalidInput).
Proof.
  split.
  - intros [E|E]; unfold calculate; rewrite E; reflexivity.
  - intros ps Eps Hne Hbad. unfold calculate. rewrite Eps.
    destruct ps as [|p ps']; [congruence|].
    destruct Hbad as [Ha|[Hh|Hp]].
    + rewrite (nonpositive_or_nonfinite_guard _ Ha). reflexivity.
    + destruct (leb (totalAmount req) zero || negb (isFinite (totalAmount req)));
        [reflexivity|].
      rewrite (nonpositive_or_nonfinite_guard _ Hh). reflexivity.
    + destruct (leb (totalAmount req) zero || negb (isFinite (totalAmount req)));
        [reflexivity|].
      destruct (leb (totalHours req) zero || negb (isFinite (totalHours req)));
        [reflexivity|].
      destruct (leb (hourlyRate req) zero || negb (isFinite (hourlyRate req)));
        [reflexivity|].
      rewrite (nonpositive_or_nonfinite_schema _ Hp). reflexivity.
Qed.

Lemma calculate_rejects_invalid_witness :
  core_error (calculate req_zero_amount) = Some InvalidInput /\
  core_error (calculate (mkCalcRequest (Some []) (of_Z 100) (of_Z 10) (of_Z 2)))
  = Some EmptyInput.
Proof.
  split.
  - apply (proj2 (calculate_rejects_invalid req_zero_amount)
                 [mkPartnerHours "A" (of_Z 10)]).
    + reflexivity.
    + discriminate.
    + left. exact I.
  - apply (proj1 (calculate_rejects_invalid
                    (mkCalcRequest (Some []) (of_Z 100) (of_Z 10) (of_Z 2)))).
    right. reflexivity.
Defined.

(** C4: the Bill Rounder fails with [NegativePayout] on every negative
    (finite) payout and with [NonFiniteInput] on NaN and the infinities. *)
Theorem roundAndCalculateBills_failures p :
  (negative p -> roundAndCalculateBills p = inl NegativePayout) /\
  (nonfinite p -> roundAndCalculateBills p = inl NonFiniteInput).
Proof.
  destruct p as [s|s| |[|] m e]; split; simpl; intro H;
    try contradiction; reflexivity.
Qed.

Lemma roundAndCalculateBills_failures_witness :
  roundAndCalculateBills (SpecFloat.SFopp (of_Z 5)) = inl NegativePayout /\
  roundAndCalculateBills S754_nan = inl NonFiniteInput.
Proof.
  split.
  - apply (proj1 (roundAndCalculateBills_failures (SpecFloat.SFopp (of_Z 5)))).
    vm_compute. exact I.
  - apply (proj2 (roundAndCalculateBills_failures S754_nan)). exact I.
Defined.

(** C5: in every computed distribution, each partner's payout is the
    product hours * hourlyRate, and that very payout is what the Bill
    Rounder receives: nothing is truncated or rounded in between. *)
Theorem calculate_payout_exact req d :
  calculate req = CalcOk d ->
  d_hourlyRate d = hourlyRate req /\
  exists ps, partnerHours req = Some ps /\
    Forall2 (fun ph pp =>
               pp_name pp = ph_name ph /\ pp_hours pp = ph_hours ph /\
               pp_payout pp = mul (ph_hours ph) (hourlyRate req) /\
               roundAndCalculateBills (pp_payout pp)
               = inr (pp_rounded pp, pp_billBreakdown pp))
            ps (d_partnerPayouts d).
Proof.
  intro H.
  destruct (calculate_ok_inv req d H)
    as (ps & Eps & _ & _ & _ & _ & _ & E5 & _ & _ & Er).
  split; [exact Er|]. exists ps. split; [exact Eps|].
  apply mapM_Forall2 in E5.
  eapply Forall2_impl; [|exact E5]. intros ph pp Hp.
  apply payout_of_Ret in Hp as (H1 & H2 & H3 & _ & _ & H6). auto.
Qed.

Lemma calculate_payout_exact_witness :
  d_hourlyRate dist_scenario = hourlyRate req_scenario /\
  exists ps, partnerHours req_scenario = Some ps /\
    Forall2 (fun ph pp =>
               pp_name pp = ph_name ph /\ pp_hours pp = ph_hours ph /\
               pp_payout pp = mul (ph_hours ph) (hourlyRate req_scenario) /\
               roundAndCalculateBills (pp_payout pp)
               = inr (pp_rounded pp, pp_billBreakdown pp))
            ps (d_partnerPayouts dist_scenario).
Proof.
  apply calculate_payout_exact. vm_compute. reflexivity.
Defined.

(** C6: summing denomination * count over the breakdown returned by the
    Bill Rounder gives back the rounded amount exactly. *)
Theorem billBreakdown_reconstructs p rounded bd :
  roundAndCalculateBills p = inr (rounded, bd) -> reconstruct bd = rounded.
Proof.
  intro H. apply roundAndCalculateBills_inr in H as (_ & _ & Er & Eb).
  subst bd. pose proof (greedy_reconstruct denominations rounded) as R.
  rewrite denominations_split, greedy_unit_last in R.
  rewrite denominations_split. lia.
Qed.

Lemma billBreakdown_reconstructs_witness :
  reconstruct [(2000, 3); (1000, 1); (500, 1)] = 7500.
Proof.
  apply (billBreakdown_reconstructs (of_Z 75)). vm_compute. reflexivity.
Defined.

(** C7: on every finite payout p >= 0 the Bill Rounder returns (the
    greedy walk is structurally recursive on the denomination list, so it
    terminates) a non-negative rounded amount whose walk ends with
    remaining = 0, and every count in the breakdown is a non-negative
    integer. *)
Theorem billRounder_terminates_nonneg p :
  nonnegative_finite p ->
  exists rounded bd,
    roundAndCalculateBills p = inr (rounded, bd) /\ 0 <= rounded /\
    snd (greedy denominations rounded) = 0 /\
    Forall (fun dc => 0 <= snd dc) bd.
Proof.
  intro Hp.
  assert (Hf : isFinite p = true /\ ltb p zero = false)
    by (destruct p as [s|s| |[|] m e]; simpl in Hp; try contradiction; auto).
  destruct Hf as [Hf Hl].
  exists (round_to_cents p), (fst (greedy denominations (round_to_cents p))).
  unfold roundAndCalculateBills. rewrite Hf, Hl. cbn [negb].
  pose proof (round_to_cents_nonneg p Hp) as Hr.
  split; [reflexivity|]. split; [exact Hr|]. split.
  - rewrite denominations_split. apply greedy_unit_last.
  - apply greedy_counts_nonneg; [exact Hr|].
    repeat constructor.
Qed.

Lemma billRounder_terminates_nonneg_witness :
  exists rounded bd,
    roundAndCalculateBills (div (of_Z 100) (of_Z 3)) = inr (rounded, bd) /\
    0 <= rounded /\ snd (greedy denominations rounded) = 0 /\
    Forall (fun dc => 0 <= snd dc) bd.
Proof.
  apply billRounder_terminates_nonneg. vm_compute. exact I.
Defined.

(** C8 (counterexample): on [req_unchecked] the rounded payouts sum to 25
    while totalAmount is 100: the distance 75 exceeds the bound
    numPartners * 0.01 / 2 = 0.005. *)
Lemma C8_residual_unbounded_cex :
  ~ (forall req d, calculate req = CalcOk d ->
       (Qabs (to_Q (totalAmount req) - sum_rounded (d_partnerPayouts d))
          <= inject_Z (Z.of_nat (List.length (d_partnerPayouts d)))
             * half_smallest_denomination)%Q).
Proof.
  intro H.
  destruct (calculate req_unchecked) as [d|s m] eqn:E.
  - pose proof (H _ _ E) as B. vm_compute in E. injection E as <-.
    vm_compute in B. apply B. reflexivity.
  - vm_compute in E. discriminate.
Qed.

(** C8 (amended): in every computed distribution the rounded amounts
    differ in total from the payouts (hours * hourlyRate) by at most
    numPartners * 0.01 / 2, and the reply is 200 with a body whose only
    fields are totalAmount, totalHours, hourlyRate and partnerPayouts, so
    no residual is reported; and the distance between totalAmount and the
    rounded total can exceed numPartners * 0.01 / 2 on a request the route
    accepts, as hourlyRate and totalHours are not checked against
    totalAmount. *)
Theorem calculate_rounding_residual_bounded :
  (forall req d, calculate req = CalcOk d ->
   (Qabs (sum_payout (d_partnerPayouts d) - sum_rounded (d_partnerPayouts d))
      <= inject_Z (Z.of_nat (List.length (d_partnerPayouts d)))
         * half_smallest_denomination)%Q /\
   calculate_route req = Respond 200 (distribution_json d) /\
   json_keys (distribution_json d)
   = ["totalAmount"; "totalHours"; "hourlyRate"; "partnerPayouts"]) /\
  (exists req d, calculate req = CalcOk d /\
   (inject_Z (Z.of_nat (List.length (d_partnerPayouts d))) * half_smallest_denomination
      < Qabs (to_Q (totalAmount req) - sum_rounded (d_partnerPayouts d)))%Q).
Proof.
  split.
  - intros req d H. split; [|split].
    + destruct (calculate_ok_inv req d H)
        as (ps & _ & _ & _ & _ & _ & _ & E5 & _ & _ & _).
      apply Qabs_Qle_condition. apply sum_payout_rounded.
      apply mapM_Forall2 in E5. clear -E5.
      induction E5 as [|ph pp ps pps Hp _ IH]; constructor; [|exact IH].
      apply payout_of_Ret in Hp as (_ & _ & _ & _ & _ & R).
      apply roundAndCalculateBills_inr in R as (_ & _ & R & _). exact R.
    + unfold calculate_route. rewrite H. reflexivity.
    + reflexivity.
  - exists req_unchecked.
    destruct (calculate req_unchecked) as [d|s m] eqn:E.
    + exists d. split; [reflexivity|].
      vm_compute in E. injection E as <-. vm_compute. reflexivity.
    + vm_compute in E. discriminate.
Qed.

Lemma calculate_rounding_residual_bounded_witness :
  (Qabs (sum_payout (d_partnerPayouts dist_scenario)
         - sum_rounded (d_partnerPayouts dist_scenario))
     <= inject_Z (Z.of_nat (List.length (d_partnerPayouts dist_scenario)))
        * half_smallest_denomination)%Q.
Proof.
  refine (proj1 (proj1 calculate_rounding_residual_bounded req_scenario dist_scenario _)).
  vm_compute. reflexivity.
Defined.

(** ** Lemmas about the parser *)
Module ParserFacts.
Import Parser.

Lemma drop_ws_spec s :
  exists ws, s = app ws (drop_ws s) /\ forallb is_ws ws = true /\
    match drop_ws s with c :: _ => is_ws c = false | [] => True end.
Proof.
  induction s as [|c s IH]; simpl.
  - exists []. auto.
  - destruct (is_ws c) eqn:Ec.
    + destruct IH as (ws & E & Hw & Hh). exists (c :: ws). simpl.
      rewrite Ec, Hw. rewrite <- E. auto.
    + exists []. simpl. auto.
Qed.

Lemma drop_ws_app_ws ws s :
  forallb is_ws ws = true -> drop_ws (app ws s) = drop_ws s.
Proof.
  induction ws as [|c ws IH]; simpl; intro H; auto.
  apply andb_true_iff in H as [H1 H2]. rewrite H1. auto.
Qed.

Lemma take_digits_spec s :
  forall ds r, take_digits s = (ds, r) ->
  s = app ds r /\ forallb is_digit ds = true /\
  match r with c :: _ => is_digit c = false | [] => True end.
Proof.
  induction s as [|c s IH]; simpl; intros ds r H.
  - injection H as <- <-. auto.
  - destruct (is_digit c) eqn:Ec.
    + destruct (take_digits s) as [ds' r'] eqn:Et.
      injection H as <- <-. destruct (IH _ _ eq_refl) as (E & H1 & H2).
      simpl. rewrite Ec, H1, E. auto.
    + injection H as <- <-. simpl. rewrite Ec. auto.
Qed.

Lemma take_digits_digit_head d r :
  is_digit d = true -> exists ds r', take_digits (d :: r) = (d :: ds, r').
Proof.
  intro H. simpl. rewrite H. destruct (take_digits r) as [ds r']. eauto.
Qed.

Lemma digit_not_ws d : is_digit d = true -> is_ws d = false.
Proof.
  unfold is_digit, is_ws, is_line_terminator. intro H.
  apply andb_true_iff in H as [H1 H2]. apply N.leb_le in H1, H2.
  repeat rewrite orb_false_iff.
  repeat split; try (apply N.eqb_neq; lia).
  apply andb_false_iff. left. apply N.leb_gt. lia.
Qed.

Lemma number_after_sound s num :
  number_after s = Some num ->
  exists ws r, s = app ws (app num r) /\ forallb is_ws ws = true /\ is_decimal num.
Proof.
  unfold number_after.
  destruct (drop_ws_spec s) as (ws & Es & Hws & _).
  destruct (take_digits (drop_ws s)) as [ds r] eqn:Et.
  destruct (take_digits_spec _ _ _ Et) as (Ed & Hd & _).
  destruct ds as [|d0 ds0]; [discriminate|].
  set (ds := d0 :: ds0) in *.
  assert (Hne : ds <> []) by discriminate.
  destruct r as [|c r'].
  - intro H. injection H as <-. exists ws, [].
    rewrite app_nil_r. rewrite Es at 1. rewrite Ed, app_nil_r.
    split; [reflexivity|]. split; [exact Hws|].
    exists ds, []. auto.
  - destruct (c =? 46)%N eqn:Ec.
    + apply N.eqb_eq in Ec. subst c.
      destruct (take_digits r') as [fs r''] eqn:Ef.
      destruct (take_digits_spec _ _ _ Ef) as (Er & Hf & _).
      destruct fs as [|f0 fs0].
      * intro H. injection H as <-. exists ws, (46%N :: r').
        rewrite Es at 1. rewrite Ed. split; [reflexivity|]. split; [exact Hws|].
        exists ds, []. auto.
      * intro H. injection H as <-. exists ws, r''.
        rewrite Es at 1. rewrite Ed, Er. split.
        -- unfold ds. simpl. rewrite <- app_assoc. reflexivity.
        -- split; [exact Hws|]. exists ds, (f0 :: fs0).
           split; [exact Hne|]. split; [exact Hd|]. split; [exact Hf|].
           right. split; [discriminate|reflexivity].
    + intro H. injection H as <-. exists ws, (c :: r').
      rewrite Es at 1. rewrite Ed. split; [reflexivity|]. split; [exact Hws|].
      exists ds, []. auto.
Qed.

Lemma number_after_complete ws d r :
  forallb is_ws ws = true -> is_digit d = true ->
  number_after (app ws (d :: r)) <> None.
Proof.
  intros Hws Hd. unfold number_after.
  rewrite drop_ws_app_ws by exact Hws. simpl drop_ws. rewrite (digit_not_ws d Hd).
  simpl take_digits. rewrite Hd.
  destruct (take_digits r) as [ds r'].
  destruct r' as [|c r'']; [discriminate|].
  destruct (c =? 46)%N; [|discriminate].
  destruct (take_digits r'') as [[|f fs] r3]; discriminate.
Qed.

Lemma match_from_sound nr rest raw num :
  match_from nr rest = Some (raw, num) ->
  exists m sep ws r,
    rest = app m (sep :: app ws (app num r)) /\ raw = app (rev nr) m /\
    forallb is_dot m = true /\ is_sep sep = true /\
    forallb is_ws ws = true /\ is_decimal num.
Proof.
  revert nr; induction rest as [|c rest IH]; intros nr H; simpl in H; [discriminate|].
  destruct (is_sep c) eqn:Es.
  - destruct (number_after rest) as [num'|] eqn:En.
    + injection H as <- <-.
      destruct (number_after_sound _ _ En) as (ws & r & Er & Hws & Hd).
      exists [], c, ws, r. rewrite app_nil_r. simpl. rewrite <- Er. auto 7.
    + destruct (is_dot c) eqn:Ed; [|discriminate].
      destruct (IH _ H) as (m & sep & ws & r & E1 & E2 & H3 & H4 & H5 & H6).
      exists (c :: m), sep, ws, r. simpl. rewrite Ed, H3, E1, E2.
      simpl. rewrite <- app_assoc. auto 7.
  - destruct (is_dot c) eqn:Ed; [|discriminate].
    destruct (IH _ H) as (m & sep & ws & r & E1 & E2 & H3 & H4 & H5 & H6).
    exists (c :: m), sep, ws, r. simpl. rewrite Ed, H3, E1, E2.
    simpl. rewrite <- app_assoc. auto 7.
Qed.

Lemma match_from_complete m nr sep ws d r :
  forallb is_dot m = true -> is_sep sep = true -> forallb is_ws ws = true ->
  is_digit d = true ->
  match_from nr (app m (sep :: app ws (d :: r))) <> None.
Proof.
  intros Hm Hs Hw Hd. revert nr; induction m as [|c m IH]; intro nr; simpl.
  - rewrite Hs. destruct (number_after (app ws (d :: r))) eqn:En; [discriminate|].
    exfalso. exact (number_after_complete ws d r Hw Hd En).
  - simpl in Hm. apply andb_true_iff in Hm as [Hc Hm].
    destruct (if is_sep c then number_after _ else None); [discriminate|].
    rewrite Hc. apply IH. exact Hm.
Qed.

Lemma match_from_prefix nr rest raw num :
  match_from nr rest = Some (raw, num) -> exists w, raw = app (rev nr) w.
Proof.
  intro H. destruct (match_from_sound _ _ _ _ H) as (m & _ & _ & _ & _ & E & _).
  eauto.
Qed.

Lemma drop_ws_snoc c u :
  is_ws c = false -> exists w, drop_ws (app u [c]) = app w [c].
Proof.
  intro Hc. induction u as [|a u IH]; simpl.
  - rewrite Hc. exists []. reflexivity.
  - destruct (is_ws a); [exact IH|]. exists (a :: u). reflexivity.
Qed.

Lemma trim_head c r :
  is_ws c = false -> exists z, trim (c :: r) = c :: z.
Proof.
  intro Hc. unfold trim. simpl. rewrite Hc. simpl.
  destruct (drop_ws_snoc c (rev r) Hc) as [w Ew]. rewrite Ew, rev_app_distr.
  simpl. eauto.
Qed.

Lemma trim_head_not_ws l c z : trim l = c :: z -> is_ws c = false.
Proof.
  unfold trim. destruct (drop_ws_spec l) as (_ & _ & _ & Hh).
  destruct (drop_ws l) as [|c0 r0]; [simpl; discriminate|].
  destruct (drop_ws_snoc c0 (rev r0) Hh) as [w Ew].
  simpl. rewrite Ew, rev_app_distr. simpl. intro E. injection E as <- _. exact Hh.
Qed.

(** What the loop body adds for one line is [positive_entry]. *)
Lemma line_entry_positive line :
  match line_entry line with Some e => [e] | None => [] end = positive_entry line.
Proof.
  unfold line_entry, positive_entry.
  destruct (trim line) as [|c z] eqn:Et; [reflexivity|].
  pose proof (trim_head_not_ws _ _ _ Et) as Hc.
  cbv zeta. unfold regex_match.
  destruct (is_dot c) eqn:Ed; [|reflexivity].
  destruct (match_from [c] z) as [[raw num]|] eqn:Em; [|reflexivity].
  destruct (match_from_prefix _ _ _ _ Em) as [w Ew]. simpl in Ew. subst raw.
  destruct (trim_head c w Hc) as [z' Ez]. rewrite Ez.
  destruct (ltb zero (parseFloat num)) eqn:Hl.
  - assert (Hn : isNaN (parseFloat num) = false).
    { destruct (parseFloat num); reflexivity || discriminate. }
    rewrite Hn. reflexivity.
  - rewrite andb_false_r. reflexivity.
Qed.

Lemma push_loop (f : jsstring -> option (jsstring * number)) lines acc :
  fold_left (fun acc line => match f line with Some e => app acc [e] | None => acc end)
            lines acc
  = app acc (flat_map (fun line => match f line with Some e => [e] | None => [] end) lines).
Proof.
  revert acc; induction lines as [|l lines IH]; intro acc; simpl.
  - symmetry. apply app_nil_r.
  - rewrite IH. destruct (f l); simpl; [rewrite <- app_assoc|]; reflexivity.
Qed.

End ParserFacts.

(** ** Claims about the parser *)

(** C9 (counterexample): the line ["Bob: 0"] has the form name, colon,
    number, yet the parser returns no entry for it. *)
Lemma C9_zero_hours_line_skipped :
  ~ (forall text, Parser.extractPartnerHours text
                  = flat_map Parser.matched_entry (Parser.split_nl text)).
Proof.
  intro H. specialize (H (Parser.js "Bob: 0")). vm_compute in H. discriminate.
Qed.

(** C9 (amended): the parser returns, in the order of the input lines
    (split at newline), one entry (trimmed name, parsed number) for each
    line whose trimmed text the pattern matches and whose number is
    greater than 0, and skips every other line; the pattern matches
    exactly the texts that start with a non-empty name (no line
    terminator), a separator (colon, hyphen or minus sign), optional
    whitespace and a number (digits, optionally a dot and digits). *)
Theorem extractPartnerHours_positive_lines text :
  Parser.extractPartnerHours text
  = flat_map Parser.positive_entry (Parser.split_nl text) /\
  (forall t raw num, Parser.regex_match t = Some (raw, num) ->
     exists sep ws r,
       t = app raw (sep :: app ws (app num r)) /\ raw <> [] /\
       forallb Parser.is_dot raw = true /\ Parser.is_sep sep = true /\
       forallb Parser.is_ws ws = true /\ Parser.is_decimal num) /\
  (forall n sep ws d r,
     n <> [] -> forallb Parser.is_dot n = true -> Parser.is_sep sep = true ->
     forallb Parser.is_ws ws = true -> Parser.is_digit d = true ->
     Parser.regex_match (app n (sep :: app ws (d :: r))) <> None).
Proof.
  split; [|split].
  - unfold Parser.extractPartnerHours.
    rewrite ParserFacts.push_loop. simpl.
    apply flat_map_ext. apply ParserFacts.line_entry_positive.
  - intros t raw num H. destruct t as [|c rest]; [discriminate|].
    unfold Parser.regex_match in H.
    destruct (Parser.is_dot c) eqn:Ed; [|discriminate].
    destruct (ParserFacts.match_from_sound _ _ _ _ H)
      as (m & sep & ws & r & E1 & E2 & H3 & H4 & H5 & H6).
    simpl in E2. subst raw rest. exists sep, ws, r.
    split; [reflexivity|]. split; [discriminate|].
    simpl. rewrite Ed, H3. auto.
  - intros n sep ws d r Hn Hd Hs Hw Hg.
    destruct n as [|c n']; [congruence|].
    simpl in Hd. apply andb_true_iff in Hd as [Hc Hd].
    simpl. rewrite Hc. apply ParserFacts.match_from_complete; assumption.
Qed.

Lemma extractPartnerHours_positive_lines_witness :
  Parser.extractPartnerHours (Parser.js "Bob: 0")
  = flat_map Parser.positive_entry (Parser.split_nl (Parser.js "Bob: 0")) /\
  Parser.regex_match (app (Parser.js "Alice") (58%N :: app [] (53%N :: [])))
  <> None.
Proof.
  split.
  - apply (proj1 (extractPartnerHours_positive_lines (Parser.js "Bob: 0"))).
  - apply (proj2 (proj2 (extractPartnerHours_positive_lines (Parser.js "Bob: 0"))));
      vm_compute; first [reflexivity | discriminate].
Defined.

(** ** Claims about the Gemini client *)
Module GeminiFacts.
Import Gemini.

Ltac failure_result H :=
  injection H as <-; left; split; [reflexivity|];
  eexists; split; [reflexivity|discriminate].

Lemma analyzeImage_try_result env fetch parse img r :
  analyzeImage_try env fetch parse img = Ret r -> well_formed_result r.
Proof.
  unfold analyzeImage_try. cbv zeta. intro H.
  destruct (String.eqb _ "") eqn:Ek; [failure_result H|].
  destruct (fetch _ img) as [resp|m]; cbn [bind] in H; [|discriminate].
  destruct (negb (ok resp)).
  - destruct (text_body resp) as [errorText|m]; cbn [bind] in H; [|discriminate].
    destruct (status resp =? 400); [failure_result H|].
    destruct (status resp =? 403); [failure_result H|].
    destruct (status resp =? 429); [failure_result H|].
    failure_result H.
  - destruct (json_body resp) as [data|m]; cbn [bind] in H; [|discriminate].
    destruct (candidates data) as [[|c cs]|]; [failure_result H| |failure_result H].
    destruct (cand_parts c) as [parts|]; cbn [bind] in H; [|discriminate].
    destruct (String.eqb (join_texts parts) "") eqn:Et; [failure_result H|].
    injection H as <-. right. eexists. split; [reflexivity|].
    intro E. rewrite E in Et. discriminate.
Qed.

End GeminiFacts.


(** ** Further facts about the parser and [formatOCRResult] *)
Module FormatFacts.
Import Parser ParserFacts Format.

Lemma drop_ws_id s :
  match s with c :: _ => is_ws c = false | [] => True end -> drop_ws s = s.
Proof. destruct s as [|c s]; simpl; [reflexivity|]. intro H. rewrite H. reflexivity. Qed.

Lemma trim_fixed t :
  match t with c :: _ => is_ws c = false | [] => True end ->
  match rev t with c :: _ => is_ws c = false | [] => True end ->
  trim t = t.
Proof.
  intros H1 H2. unfold trim. rewrite (drop_ws_id t H1), (drop_ws_id (rev t) H2).
  apply rev_involutive.
Qed.

Lemma trim_trim l : trim (trim l) = trim l.
Proof.
  apply trim_fixed.
  - destruct (trim l) as [|c z] eqn:E; [exact I|]. exact (trim_head_not_ws _ _ _ E).
  - unfold trim. rewrite rev_involutive.
    destruct (drop_ws_spec (rev (drop_ws l))) as (_ & _ & _ & H). exact H.
Qed.

Lemma trim_infix l : exists a b, l = app a (app (trim l) b).
Proof.
  destruct (drop_ws_spec l) as (ws1 & E1 & _ & _).
  destruct (drop_ws_spec (rev (drop_ws l))) as (ws2 & E2 & _ & _).
  exists ws1, (rev ws2). unfold trim.
  rewrite E1 at 1. f_equal.
  rewrite <- rev_app_distr, <- E2, rev_involutive. reflexivity.
Qed.

Lemma forallb_trim (P : jschar -> bool) l :
  forallb P l = true -> forallb P (trim l) = true.
Proof.
  destruct (trim_infix l) as (a & b & E). rewrite E at 1.
  rewrite !forallb_app. intro H. apply andb_true_iff in H as [_ H].
  apply andb_true_iff in H as [H _]. exact H.
Qed.

Lemma split_nl_aux_no_nl s cur l :
  ~ In 10%N cur -> In l (split_nl_aux s cur) -> ~ In 10%N l.
Proof.
  revert cur; induction s as [|c s IH]; intros cur Hc; simpl.
  - intros [<-|[]]. rewrite <- in_rev. exact Hc.
  - destruct (c =? 10)%N eqn:E.
    + intros [<-|H]; [rewrite <- in_rev; exact Hc|]. exact (IH [] (fun x => x) H).
    + apply IH. intros [H|H]; [subst c; discriminate|exact (Hc H)].
Qed.

Lemma split_nl_no_nl s l : In l (split_nl s) -> ~ In 10%N l.
Proof. apply split_nl_aux_no_nl. intros []. Qed.

Lemma split_nl_aux_app l s cur :
  ~ In 10%N l -> split_nl_aux (app l s) cur = split_nl_aux s (app (rev l) cur).
Proof.
  revert cur; induction l as [|c l IH]; intros cur H; simpl; [reflexivity|].
  destruct (c =? 10)%N eqn:E.
  - apply N.eqb_eq in E. subst c. exfalso. apply H. left. reflexivity.
  - rewrite IH by (intro H'; apply H; right; exact H').
    rewrite <- app_assoc. reflexivity.
Qed.

Lemma split_join ls :
  ls <> [] -> (forall l, In l ls -> ~ In 10%N l) -> split_nl (join_nl ls) = ls.
Proof.
  induction ls as [|l ls IH]; intros Hne H; [congruence|].
  unfold split_nl. destruct ls as [|l' ls'].
  - simpl. rewrite <- (app_nil_r l) at 1.
    rewrite split_nl_aux_app by (apply H; left; reflexivity).
    simpl. rewrite app_nil_r, rev_involutive. reflexivity.
  - change (join_nl (l :: l' :: ls')) with (app l (10%N :: join_nl (l' :: ls'))).
    rewrite split_nl_aux_app by (apply H; left; reflexivity).
    simpl. rewrite app_nil_r, rev_involutive. f_equal.
    apply IH; [discriminate|]. intros x Hx. apply H. right. exact Hx.
Qed.

Lemma join_nl_nil ls :
  Forall (fun l => l <> []) ls -> join_nl ls = [] -> ls = [].
Proof.
  destruct ls as [|l [|l' ls]]; intros H E; [reflexivity| |].
  - inversion H; subst. simpl in E. contradiction.
  - simpl in E. destruct l; discriminate.
Qed.

Lemma split_nl_aux_snoc t1 t2 cur :
  split_nl_aux (app t1 (10%N :: t2)) cur = app (split_nl_aux t1 cur) (split_nl t2).
Proof.
  revert cur; induction t1 as [|c t1 IH]; intro cur; simpl; [reflexivity|].
  destruct (c =? 10)%N; [|apply IH]. simpl. f_equal. apply IH.
Qed.

(** The lines [formatOCRResult] keeps. *)
Definition kept (text : jsstring) : list jsstring :=
  filter (fun line => Nat.ltb 0 (List.length line)) (map trim (split_nl text)).

Lemma kept_lines text :
  Forall (fun l => l <> [] /\ trim l = l /\ ~ In 10%N l) (kept text).
Proof.
  apply Forall_forall. unfold kept. intros l Hl.
  apply filter_In in Hl as [Hl Hn]. apply in_map_iff in Hl as (l0 & <- & Hl0).
  split; [intro E; rewrite E in Hn; discriminate|]. split; [apply trim_trim|].
  intro H. apply (split_nl_no_nl _ _ Hl0).
  destruct (trim_infix l0) as (a & b & E). rewrite E.
  apply in_or_app. right. apply in_or_app. left. exact H.
Qed.

Lemma kept_nil text : kept text = [] <-> Forall (fun l => trim l = []) (split_nl text).
Proof.
  unfold kept. induction (split_nl text) as [|l ls IH]; simpl.
  - split; auto.
  - destruct (trim l) as [|c z] eqn:E; simpl.
    + rewrite IH. split; [intro H; constructor; auto|intro H; inversion H; auto].
    + split; [discriminate|intro H; inversion H; congruence].
Qed.

Lemma format_split text :
  formatOCRResult text <> [] -> split_nl (formatOCRResult text) = kept text.
Proof.
  intro Hne. fold (kept text) in *. unfold formatOCRResult in *. fold (kept text) in *.
  apply split_join.
  - intro E. apply Hne. rewrite E. reflexivity.
  - intros l Hl. pose proof (kept_lines text) as H. rewrite Forall_forall in H.
    apply H. exact Hl.
Qed.

Lemma format_nil text : formatOCRResult text = [] <-> kept text = [].
Proof.
  unfold formatOCRResult. fold (kept text). split.
  - apply join_nl_nil. eapply Forall_impl; [|apply kept_lines]. simpl. tauto.
  - intros ->. reflexivity.
Qed.

Definition entry_list (e : option (jsstring * number)) : list (jsstring * number) :=
  match e with Some x => [x] | None => [] end.

Lemma extract_flat_map text :
  extractPartnerHours text = flat_map (fun l => entry_list (line_entry l)) (split_nl text).
Proof. unfold extractPartnerHours. rewrite push_loop. reflexivity. Qed.

Lemma line_entry_trim l : line_entry (trim l) = line_entry l.
Proof. unfold line_entry. rewrite trim_trim. reflexivity. Qed.

Lemma line_entry_blank l : trim l = [] -> line_entry l = None.
Proof. unfold line_entry. intros ->. reflexivity. Qed.

Lemma extract_kept text :
  extractPartnerHours text = flat_map (fun l => entry_list (line_entry l)) (kept text).
Proof.
  rewrite extract_flat_map. unfold kept.
  induction (split_nl text) as [|l ls IH]; simpl; [reflexivity|].
  rewrite IH. destruct (trim l) as [|c z] eqn:E; simpl.
  - rewrite (line_entry_blank l E). reflexivity.
  - rewrite <- E, line_entry_trim. reflexivity.
Qed.

Lemma line_entry_shape l n h :
  line_entry l = Some (n, h) ->
  n <> [] /\ trim n = n /\ forallb is_dot n = true /\ ltb zero h = true.
Proof.
  unfold line_entry. destruct (trim l) as [|c z] eqn:Et; [discriminate|].
  unfold regex_match. destruct (is_dot c) eqn:Ed; [|discriminate].
  destruct (match_from [c] z) as [[raw num]|] eqn:Em; [|discriminate].
  destruct (match_from_sound _ _ _ _ Em) as (m & _ & _ & _ & _ & E2 & H3 & _).
  cbv zeta. destruct (trim raw) as [|c' z'] eqn:Er; [discriminate|].
  destruct (negb (isNaN (parseFloat num)) && ltb zero (parseFloat num)) eqn:Hh;
    [|discriminate].
  intro H. injection H as <- <-. apply andb_true_iff in Hh as [_ Hh].
  split; [discriminate|]. split; [rewrite <- Er; apply trim_trim|].
  split; [|exact Hh]. rewrite <- Er. apply forallb_trim.
  rewrite E2. simpl. rewrite Ed. exact H3.
Qed.

End FormatFacts.

(** ** Properties of [formatOCRResult] and the parser *)

(** [formatOCRResult] gives the empty text exactly when every input line
    is blank; otherwise splitting its result at newlines gives back the
    trimmed non-empty input lines, in order, each non-empty and without
    leading or trailing whitespace. *)
Theorem formatOCRResult_lines text :
  (Format.formatOCRResult text = [] <->
   Forall (fun line => Parser.trim line = []) (Parser.split_nl text)) /\
  (Format.formatOCRResult text <> [] ->
   Parser.split_nl (Format.formatOCRResult text)
   = filter (fun line => Nat.ltb 0 (List.length line)) (map Parser.trim (Parser.split_nl text)) /\
   Forall (fun line => line <> [] /\ Parser.trim line = line)
          (Parser.split_nl (Format.formatOCRResult text))).
Proof.
  split.
  - rewrite FormatFacts.format_nil. apply FormatFacts.kept_nil.
  - intro Hne. rewrite (FormatFacts.format_split _ Hne). split; [reflexivity|].
    eapply Forall_impl; [|apply FormatFacts.kept_lines]. simpl. tauto.
Qed.

Lemma formatOCRResult_lines_witness :
  Parser.split_nl (Format.formatOCRResult (Parser.js "  Ann: 5 ")) = [Parser.js "Ann: 5"].
Proof.
  apply (proj2 (formatOCRResult_lines (Parser.js "  Ann: 5 "))). vm_compute. discriminate.
Defined.

(** Formatting a formatted text changes nothing. *)
Theorem formatOCRResult_idempotent text :
  Format.formatOCRResult (Format.formatOCRResult text) = Format.formatOCRResult text.
Proof.
  destruct (Format.formatOCRResult text) as [|c z] eqn:E.
  - reflexivity.
  - rewrite <- E. unfold Format.formatOCRResult at 1.
    rewrite (FormatFacts.format_split text) by (rewrite E; discriminate).
    pose proof (FormatFacts.kept_lines text) as H.
    assert (Hk : filter (fun line => Nat.ltb 0 (List.length line)) (map Parser.trim (FormatFacts.kept text))
                 = FormatFacts.kept text).
    { induction H as [|l ls [Hl [Ht _]] _ IH]; [reflexivity|].
      simpl. rewrite Ht. destruct l as [|a l]; [congruence|]. simpl. f_equal. exact IH. }
    rewrite Hk. reflexivity.
Qed.

(** Parsing the formatted text that the OCR route displays gives the same
    partner hours as parsing the raw text. *)
Theorem extractPartnerHours_formatOCRResult text :
  Parser.extractPartnerHours (Format.formatOCRResult text) = Parser.extractPartnerHours text.
Proof.
  rewrite (FormatFacts.extract_kept text).
  destruct (Format.formatOCRResult text) as [|c z] eqn:E.
  - apply FormatFacts.format_nil in E. rewrite E. reflexivity.
  - rewrite <- E, FormatFacts.extract_flat_map, FormatFacts.format_split by (rewrite E; discriminate).
    reflexivity.
Qed.

(** Lines are parsed independently: the entries of two texts joined by a
    newline are the entries of the first followed by those of the second. *)
Theorem extractPartnerHours_app text1 text2 :
  Parser.extractPartnerHours (app text1 (10%N :: text2))
  = app (Parser.extractPartnerHours text1) (Parser.extractPartnerHours text2).
Proof.
  rewrite !FormatFacts.extract_flat_map. unfold Parser.split_nl.
  rewrite FormatFacts.split_nl_aux_snoc, flat_map_app. reflexivity.
Qed.

(** Every entry the parser returns has a non-empty, trimmed name without
    line terminators and hours greater than 0; there are at most as many
    entries as lines. *)
Theorem extractPartnerHours_entries text :
  (forall n h, In (n, h) (Parser.extractPartnerHours text) ->
     n <> [] /\ Parser.trim n = n /\ forallb Parser.is_dot n = true /\ ltb zero h = true) /\
  (List.length (Parser.extractPartnerHours text) <= List.length (Parser.split_nl text))%nat.
Proof.
  rewrite FormatFacts.extract_flat_map. split.
  - intros n h H. apply in_flat_map in H as (l & _ & Hl).
    destruct (Parser.line_entry l) as [[n' h']|] eqn:E; [|destruct Hl].
    destruct Hl as [Hl|[]]. injection Hl as -> ->.
    exact (FormatFacts.line_entry_shape _ _ _ E).
  - induction (Parser.split_nl text) as [|l ls IH]; simpl; [lia|].
    rewrite length_app. destruct (Parser.line_entry l); simpl; lia.
Qed.

Lemma extractPartnerHours_entries_witness :
  Parser.js "Ann" <> [] /\ Parser.trim (Parser.js "Ann") = Parser.js "Ann" /\
  forallb Parser.is_dot (Parser.js "Ann") = true /\ ltb zero (Parser.parseFloat (Parser.js "5")) = true.
Proof.
  apply (proj1 (extractPartnerHours_entries (Parser.js " Ann : 5"))).
  vm_compute. left. reflexivity.
Defined.

(** ** Facts about the partners API *)
Module PartnersFacts.
Import Parser Partners.

Lemma handler_effect req st :
  let '(r, st') := handler req st in
  (exists b s, method req = "POST" /\ body req = Some b /\ prop b "name" = VString s /\
     trim s <> [] /\
     r = mkReply 201 (BPartner (mkPartner (trim s) (partnerId st))) /\
     st' = mkStore (app (partners st) [mkPartner (trim s) (partnerId st)]) (partnerId st + 1))
  \/ (st' = st /\ status r <> 201 /\
      match reply_body r with BPartner _ => False | _ => True end).
Proof.
  unfold handler, handler_try.
  destruct (String.eqb (method req) "GET") eqn:Eg.
  { right. split; [reflexivity|]. split; [discriminate|exact I]. }
  destruct (String.eqb (method req) "POST") eqn:Ep.
  2: { right. split; [reflexivity|]. split; [discriminate|exact I]. }
  destruct (body req) as [b|] eqn:Eb; cbn [bind].
  2: { right. split; [reflexivity|]. split; [discriminate|exact I]. }
  cbv zeta.
  destruct (prop b "name") as [| | bo | x | s |] eqn:En;
    try (right; split; [reflexivity|]; split; [discriminate|exact I]).
  - destruct bo; right; split; [reflexivity| |reflexivity|]; split; try discriminate; exact I.
  - destruct (negb (truthy (VNumber x))); right; split; try reflexivity; split; try discriminate; exact I.
  - cbn [is_string negb orb].
    destruct (trim s) as [|c z] eqn:Et.
    + rewrite orb_true_r. right. split; [reflexivity|]. split; [discriminate|exact I].
    + destruct s as [|a s']; [discriminate|]. cbn [truthy List.length Nat.eqb negb orb].
      left. exists b, (a :: s'). rewrite Et. apply String.eqb_eq in Ep.
      repeat split; auto; discriminate.
Qed.

Lemma handler_store_ok req st : store_ok st -> store_ok (snd (handler req st)).
Proof.
  pose proof (handler_effect req st) as H.
  destruct (handler req st) as [r st']. simpl.
  destruct H as [(b & s & _ & _ & _ & Hs & _ & ->)|(-> & _)]; [|tauto].
  unfold store_ok. simpl. intros (Hi & Hn & Hf).
  rewrite length_app. simpl. rewrite Nat.add_1_r, seq_S, !map_app, Hi, Hn. simpl.
  split; [f_equal; f_equal; lia|]. split; [lia|].
  apply Forall_app. split; [exact Hf|]. constructor; [|constructor].
  split; [exact Hs|apply FormatFacts.trim_trim].
Qed.

Lemma run_store_ok reqs st : store_ok st -> store_ok (snd (run reqs st)).
Proof.
  revert st; induction reqs as [|r rs IH]; intros st H; simpl; [exact H|].
  pose proof (handler_store_ok r st H) as H1.
  destruct (handler r st) as [rep st1]. simpl in H1.
  specialize (IH st1 H1). destruct (run rs st1) as [reps st2]. exact IH.
Qed.

Lemma run_partners reqs st :
  partners (snd (run reqs st)) = app (partners st) (created (fst (run reqs st))).
Proof.
  revert st; induction reqs as [|r rs IH]; intro st; simpl; [symmetry; apply app_nil_r|].
  pose proof (handler_effect r st) as H.
  destruct (handler r st) as [rep st1]. specialize (IH st1).
  destruct (run rs st1) as [reps st2]. simpl in *. rewrite IH.
  destruct H as [(b & s & _ & _ & _ & _ & -> & ->)|(-> & _ & Hb)].
  - simpl. rewrite <- app_assoc. reflexivity.
  - destruct (reply_body rep); try reflexivity; contradiction.
Qed.

End PartnersFacts.

(** ** Properties of the partners API *)


(** After any sequence of requests from the initial state, the stored
    partners have ids 1, 2, ..., n in order, [partnerId] is n + 1, and every
    stored name is non-empty and trimmed. *)
Theorem partners_store_invariant reqs :
  Partners.store_ok (snd (Partners.run reqs Partners.initial_store)).
Proof.
  apply PartnersFacts.run_store_ok. unfold Partners.store_ok. simpl. auto.
Qed.

(** A GET after any sequence of requests replies 200 with exactly the
    partners returned by the earlier 201 replies, in order, and leaves the
    store unchanged. *)
Theorem partners_get_after_run reqs req :
  Partners.method req = "GET" ->
  let '(reps, st) := Partners.run reqs Partners.initial_store in
  Partners.handler req st = (Partners.mkReply 200 (Partners.BPartners (Partners.created reps)), st).
Proof.
  intro Hg. pose proof (PartnersFacts.run_partners reqs Partners.initial_store) as H.
  destruct (Partners.run reqs Partners.initial_store) as [reps st]. simpl in H.
  unfold Partners.handler, Partners.handler_try. rewrite Hg. simpl.
  unfold Partners.getPartners. rewrite H. reflexivity.
Qed.

Lemma partners_get_after_run_witness :
  Partners.handler (Partners.mkRequest "GET" None)
    (snd (Partners.run [Partners.mkRequest "POST" (Some [("name", Partners.VString (Parser.js " Ann "))]);
                        Partners.mkRequest "POST" (Some [("name", Partners.VString (Parser.js "  "))])]
                       Partners.initial_store))
  = (Partners.mkReply 200 (Partners.BPartners [Partners.mkPartner (Parser.js "Ann") 1]),
     Partners.mkStore [Partners.mkPartner (Parser.js "Ann") 1] 2).
Proof.
  exact (partners_get_after_run
           [Partners.mkRequest "POST" (Some [("name", Partners.VString (Parser.js " Ann "))]);
            Partners.mkRequest "POST" (Some [("name", Partners.VString (Parser.js "  "))])]
           (Partners.mkRequest "GET" None) eq_refl).
Defined.

(** Rejections: a POST without a body gets 500 "Failed to create partner";
    a POST whose [name] is missing, not a string, or blank after trimming
    gets 400 "Partner name is required"; any method other than GET and
    POST gets 405. In each case the store is unchanged. *)
Theorem partners_handler_rejects req st :
  (Partners.method req = "POST" -> Partners.body req = None ->
   Partners.handler req st = (Partners.mkReply 500 (Partners.BError Partners.msg_create), st)) /\
  (Partners.method req = "POST" -> forall b, Partners.body req = Some b ->
   (forall s, Partners.prop b "name" = Partners.VString s -> Parser.trim s = []) ->
   Partners.handler req st = (Partners.mkReply 400 (Partners.BError Partners.msg_name_required), st)) /\
  (Partners.method req <> "GET" -> Partners.method req <> "POST" ->
   Partners.handler req st = (Partners.mkReply 405 (Partners.BError Partners.msg_method), st)).
Proof.
  unfold Partners.handler, Partners.handler_try. split; [|split].
  - intros Hp Hb. rewrite Hp, Hb. reflexivity.
  - intros Hp b Hb Hs. rewrite Hp, Hb. simpl.
    destruct (Partners.prop b "name") as [| | bo | x | s |];
      try reflexivity.
    + destruct bo; reflexivity.
    + destruct (negb (Partners.truthy (Partners.VNumber x))); reflexivity.
    + rewrite (Hs s eq_refl). simpl. rewrite orb_true_r. reflexivity.
  - intros Hg Hp. apply String.eqb_neq in Hg, Hp. rewrite Hg, Hp. reflexivity.
Qed.

Lemma partners_handler_rejects_witness :
  Partners.handler (Partners.mkRequest "POST" (Some [("name", Partners.VString (Parser.js "   "))]))
                   Partners.initial_store
  = (Partners.mkReply 400 (Partners.BError Partners.msg_name_required), Partners.initial_store).
Proof.
  apply (proj1 (proj2 (partners_handler_rejects
    (Partners.mkRequest "POST" (Some [("name", Partners.VString (Parser.js "   "))]))
    Partners.initial_store)) eq_refl _ eq_refl).
  intros s Hs. vm_compute in Hs. injection Hs as <-. vm_compute. reflexivity.
Defined.

(** ** Facts about the OCR handlers *)
Module OcrFacts.

Lemma analyzeImage_returns env fetch parse img :
  exists r, Gemini.analyzeImage env fetch parse img = Ret r /\ Gemini.well_formed_result r.
Proof.
  unfold Gemini.analyzeImage.
  destruct (Gemini.analyzeImage_try env fetch parse img) as [r|m] eqn:E.
  - exists r. split; [reflexivity|]. exact (GeminiFacts.analyzeImage_try_result _ _ _ _ _ E).
  - eexists. split; [reflexivity|]. left. split; [reflexivity|].
    eexists. split; [reflexivity|discriminate].
Qed.

Lemma or_else_nonempty e d : e <> "" -> Gemini.or_else (Some e) d = e.
Proof.
  intro H. unfold Gemini.or_else.
  destruct (String.eqb e "") eqn:E; [apply String.eqb_eq in E; contradiction|reflexivity].
Qed.

Lemma eqb_nonempty t : t <> "" -> String.eqb t "" = false.
Proof. intro H. apply String.eqb_neq. exact H. Qed.

End OcrFacts.

(** ** Properties of the OCR route *)

(** Without a file the [/api/ocr] route replies 400. With a file,
    [analyzeImage] returns a result (it never throws). When the result has
    a text, the route replies 200 with what the [formatUtils] helpers
    [formatOCRResult] and [extractPartnerHours] return for it, and its
    [catch] (500 with the generic processing message) is reached only when
    one of them throws; otherwise it replies 500 with the non-empty error
    of [analyzeImage] and [suggestManualEntry] set. The helpers are
    arbitrary functions. *)
Theorem ocr_route_outcomes env fetch parse xph fmt File base64 (f : File) :
  OcrRoute.ocr_route env fetch parse xph fmt File base64 None
  = (400, OcrRoute.OcrError OcrRoute.msg_no_file None None) /\
  exists r, Gemini.analyzeImage env fetch parse (base64 f) = Ret r /\
  match Gemini.text r with
  | Some t =>
      t <> "" /\
      OcrRoute.ocr_route env fetch parse xph fmt File base64 (Some f)
      = match xph (Parser.js t), fmt (Parser.js t) with
        | Ret ph, Ret ft => (200, OcrRoute.OcrText ft ph)
        | Throw m, _ | Ret _, Throw m =>
            (500, OcrRoute.OcrError OcrRoute.msg_process (Some m) (Some true))
        end
  | None =>
      exists e, Gemini.error r = Some e /\ e <> "" /\
      OcrRoute.ocr_route env fetch parse xph fmt File base64 (Some f)
      = (500, OcrRoute.OcrError e None (Some true))
  end.
Proof.
  split; [reflexivity|].
  destruct (OcrFacts.analyzeImage_returns env fetch parse (base64 f)) as (r & Hr & Hw).
  exists r. split; [exact Hr|].
  unfold OcrRoute.ocr_route, OcrRoute.ocr_try. rewrite Hr. cbn [bind].
  destruct Hw as [(Ht & e & He & Hne)|(t & Ht & Hne)]; rewrite Ht.
  - exists e. split; [exact He|]. split; [exact Hne|].
    rewrite He, (OcrFacts.or_else_nonempty _ _ Hne). reflexivity.
  - split; [exact Hne|]. rewrite (OcrFacts.eqb_nonempty _ Hne).
    destruct (xph (Parser.js t)); cbn [bind]; [|reflexivity].
    destruct (fmt (Parser.js t)); reflexivity.
Qed.

(** With neither [GEMINI_API_KEY] nor [NETLIFY_GEMINI_API_KEY] set to a
    non-empty value, the OCR route replies 500 with the missing-key
    message, whatever [fetch] would do: no request is sent. *)
Theorem ocr_route_missing_key env fetch parse xph fmt File base64 (f : File) :
  (env "GEMINI_API_KEY" = None \/ env "GEMINI_API_KEY" = Some "") ->
  (env "NETLIFY_GEMINI_API_KEY" = None \/ env "NETLIFY_GEMINI_API_KEY" = Some "") ->
  OcrRoute.ocr_route env fetch parse xph fmt File base64 (Some f)
  = (500, OcrRoute.OcrError Gemini.msg_key_missing None (Some true)).
Proof.
  intros H1 H2.
  unfold OcrRoute.ocr_route, OcrRoute.ocr_try, Gemini.analyzeImage, Gemini.analyzeImage_try.
  destruct H1 as [-> | ->]; destruct H2 as [-> | ->]; reflexivity.
Qed.

Lemma ocr_route_missing_key_witness :
  OcrRoute.ocr_route (fun _ => None) (fun _ _ => Throw "unreachable") (fun _ => None)
                     (fun _ => Throw "unreachable") (fun _ => Throw "unreachable")
                     unit (fun _ => "") (Some tt)
  = (500, OcrRoute.OcrError Gemini.msg_key_missing None (Some true)).
Proof.
  apply ocr_route_missing_key; left; reflexivity.
Defined.

(** ** Facts about the redaction of error messages *)
Module RedactionFacts.
Import Gemini Redaction.

Lemma prefix_inv s1 s2 : String.prefix s1 s2 = true -> exists r, s2 = (s1 ++ r)%string.
Proof.
  revert s2; induction s1 as [|a s1 IH]; intros s2 H.
  - exists s2. reflexivity.
  - destruct s2 as [|b s2]; [discriminate|]. simpl in H.
    destruct (ascii_dec a b) as [<-|]; [|discriminate].
    destruct (IH _ H) as [r ->]. exists r. reflexivity.
Qed.

Lemma substring_all r m : (String.length r <= m)%nat -> substring 0 m r = r.
Proof.
  revert m; induction r as [|c r IH]; intros m H; destruct m as [|m]; simpl in *;
    try reflexivity; try lia.
  rewrite IH by lia. reflexivity.
Qed.

Lemma take_key_app k r :
  key_chars k = true ->
  match r with String c _ => is_key_char c = false | EmptyString => True end ->
  take_key (k ++ r) = (k, r).
Proof.
  intros Hk Hr. induction k as [|a k IH]; simpl.
  - destruct r as [|c r']; [reflexivity|]. simpl. rewrite Hr. reflexivity.
  - simpl in Hk. apply andb_true_iff in Hk as [Ha Hk]. rewrite Ha, (IH Hk). reflexivity.
Qed.

Lemma here_none s :
  key_match_at s = false ->
  (if String.prefix "api_key:" s then
     match take_key (substring 8 (String.length s) s) with
     | (EmptyString, _) => None
     | (_, after) => Some ("api_key:[REDACTED]" ++ after)
     end
   else None) = None.
Proof.
  unfold key_match_at. intro H.
  destruct (String.prefix "api_key:" s) eqn:Ep; [|reflexivity].
  destruct (prefix_inv _ _ Ep) as [r ->]. simpl in H.
  change (substring 8 (String.length ("api_key:" ++ r)) ("api_key:" ++ r))
    with (substring 0 (8 + String.length r) r).
  rewrite substring_all by lia.
  destruct r as [|c r']; [reflexivity|]. simpl in H. simpl. rewrite H. reflexivity.
Qed.

Lemma redact_step c s' :
  key_match_at (String c s') = false -> redact (String c s') = String c (redact s').
Proof.
  intro H. cbn [redact]. rewrite (here_none _ H). reflexivity.
Qed.

Lemma redact_prefix p s :
  no_match_within p s = true -> redact (p ++ s) = (p ++ redact s)%string.
Proof.
  induction p as [|c p IH]; intro H; [reflexivity|].
  simpl in H. apply andb_true_iff in H as [H1 H2]. apply negb_true_iff in H1.
  change (String c p ++ s)%string with (String c (p ++ s)).
  rewrite redact_step by exact H1. rewrite (IH H2). reflexivity.
Qed.

Lemma redact_unfold s c s' :
  s = String c s' ->
  redact s =
  match (if String.prefix "api_key:" s then
           match take_key (substring 8 (String.length s) s) with
           | (EmptyString, _) => None
           | (_, after) => Some ("api_key:[REDACTED]" ++ after)
           end
         else None) with
  | Some r => r
  | None => String c (redact s')
  end.
Proof. intros ->. reflexivity. Qed.

Lemma prefix_app s1 s2 : String.prefix s1 (s1 ++ s2) = true.
Proof.
  induction s1 as [|a s1 IH]; simpl; [destruct s2; reflexivity|].
  destruct (ascii_dec a a); [exact IH|congruence].
Qed.

Lemma substring_key r :
  substring 8 (String.length ("api_key:" ++ r)) ("api_key:" ++ r) = r.
Proof.
  change (substring 8 (String.length ("api_key:" ++ r)) ("api_key:" ++ r))
    with (substring 0 (8 + String.length r) r).
  apply substring_all. lia.
Qed.

Lemma redact_match k r :
  k <> EmptyString -> key_chars k = true ->
  match r with String c _ => is_key_char c = false | EmptyString => True end ->
  redact ("api_key:" ++ k ++ r) = ("api_key:[REDACTED]" ++ r)%string.
Proof.
  intros Hne Hk Hr.
  rewrite (redact_unfold ("api_key:" ++ k ++ r) "a"%char ("pi_key:" ++ k ++ r) eq_refl).
  rewrite prefix_app, substring_key, (take_key_app _ _ Hk Hr).
  destruct k; [congruence|reflexivity].
Qed.

Lemma append_empty s : (s ++ "")%string = s.
Proof. induction s as [|c s IH]; simpl; [reflexivity|]. rewrite IH. reflexivity. Qed.

End RedactionFacts.

(** ** Properties of the redaction of error messages *)

(** Only the first API key is hidden: when no match of
    [api_key:[a-zA-Z0-9-_]+] starts inside [p], the key [k] after
    ["api_key:"] is replaced by ["[REDACTED]"] and everything after it,
    including any further key, is kept unchanged. *)
Theorem redact_first_key_only p k r :
  Redaction.no_match_within p ("api_key:" ++ k ++ r) = true ->
  k <> "" -> Redaction.key_chars k = true ->
  match r with String c _ => Gemini.is_key_char c = false | EmptyString => True end ->
  Gemini.redact (p ++ "api_key:" ++ k ++ r) = (p ++ "api_key:[REDACTED]" ++ r)%string.
Proof.
  intros Hp Hne Hk Hr. rewrite (RedactionFacts.redact_prefix _ _ Hp).
  rewrite (RedactionFacts.redact_match _ _ Hne Hk Hr). reflexivity.
Qed.

Lemma redact_first_key_only_witness :
  Gemini.redact "denied api_key:AB1 or api_key:CD2"
  = "denied api_key:[REDACTED] or api_key:CD2".
Proof.
  apply (redact_first_key_only "denied " "AB1" " or api_key:CD2");
    vm_compute; first [reflexivity | discriminate].
Defined.

(** A message in which the pattern matches nowhere is left unchanged. *)
Theorem redact_no_match s :
  Redaction.no_match_within s "" = true -> Gemini.redact s = s.
Proof.
  intro H. rewrite <- (RedactionFacts.append_empty s) at 1.
  rewrite (RedactionFacts.redact_prefix _ _ H). apply RedactionFacts.append_empty.
Qed.

Lemma redact_no_match_witness : Gemini.redact "api_key: missing" = "api_key: missing".
Proof. apply redact_no_match. vm_compute. reflexivity. Defined.

(** ** Validation of the hourly rate by the calculate route *)

Lemma guard_false_positive_finite x :
  (leb x zero || negb (isFinite x)) = false -> positive_finite x.
Proof.
  destruct x as [[|]|[|]| |[|] m e]; simpl; intro H; try discriminate; exact I.
Qed.

(** With a non-empty partner list and a valid total amount and total
    hours, an hourly rate that is not positive or not finite gets the
    reply 400 "Hourly rate must be a positive number"; and a distribution
    is only computed when the partner list is non-empty and the total
    amount, total hours and hourly rate are all positive and finite. *)
Theorem calculate_validates_rate req :
  (forall ps, partnerHours req = Some ps -> ps <> [] ->
   positive_finite (totalAmount req) -> positive_finite (totalHours req) ->
   nonpositive_or_nonfinite (hourlyRate req) ->
   calculate_route req = Respond 400 (JObj [("error", JStr msg_rate)])) /\
  (forall d, calculate req = CalcOk d ->
   (exists ps, partnerHours req = Some ps /\ ps <> []) /\
   positive_finite (totalAmount req) /\ positive_finite (totalHours req) /\
   positive_finite (hourlyRate req)).
Proof.
  split.
  - intros ps Hp Hne Ha Hh Hr. unfold calculate_route, calculate. rewrite Hp.
    destruct ps as [|p ps]; [congruence|].
    rewrite (positive_finite_guard _ Ha), (positive_finite_guard _ Hh),
            (nonpositive_or_nonfinite_guard _ Hr).
    reflexivity.
  - intros d. unfold calculate.
    destruct (partnerHours req) as [[|p ps]|]; try discriminate.
    destruct (leb (totalAmount req) zero || negb (isFinite (totalAmount req))) eqn:Ea;
      [discriminate|].
    destruct (leb (totalHours req) zero || negb (isFinite (totalHours req))) eqn:Eh;
      [discriminate|].
    destruct (leb (hourlyRate req) zero || negb (isFinite (hourlyRate req))) eqn:Er;
      [discriminate|].
    intros _. split; [exists (p :: ps); split; [reflexivity|discriminate]|].
    auto using guard_false_positive_finite.
Qed.

Lemma calculate_validates_rate_witness :
  calculate_route (mkCalcRequest (Some [mkPartnerHours "A" (of_Z 10)]) (of_Z 100) (of_Z 40) zero)
  = Respond 400 (JObj [("error", JStr msg_rate)]).
Proof.
  apply (proj1 (calculate_validates_rate
                  (mkCalcRequest (Some [mkPartnerHours "A" (of_Z 10)]) (of_Z 100) (of_Z 40) zero))
               [mkPartnerHours "A" (of_Z 10)]);
    first [reflexivity | discriminate | vm_compute; exact I].
Defined.

(** ** The serverless OCR handler *)

(** The serverless handler of [index.css] replies 405 to any method but
    POST. When the upload middleware fails it replies 500 with the generic
    processing message, the failure as details and [suggestManualEntry];
    without a file it replies 400. With a file, its [analyzeImage] returns
    a result: with a text, the reply is 200 with the formatted text and the
    partner hours parsed from it; otherwise 500 with the non-empty error
    and [suggestManualEntry]. It reads only [GEMINI_API_KEY]: when that is
    unset or empty it replies 500 with the missing-key message, whatever
    [NETLIFY_GEMINI_API_KEY] holds and whatever [fetch] would do. *)
Theorem ocr_handler_outcomes env fetch parse File base64 method upload :
  (method <> "POST" ->
   OcrRoute.handler env fetch parse File base64 method upload
   = (405, OcrRoute.OcrError OcrRoute.msg_method None None)) /\
  (forall m, method = "POST" -> upload = Throw m ->
   OcrRoute.handler env fetch parse File base64 method upload
   = (500, OcrRoute.OcrError OcrRoute.msg_process (Some m) (Some true))) /\
  (method = "POST" -> upload = Ret None ->
   OcrRoute.handler env fetch parse File base64 method upload
   = (400, OcrRoute.OcrError OcrRoute.msg_no_file None None)) /\
  (forall f, method = "POST" -> upload = Ret (Some f) ->
   exists r, Gemini.analyzeImage (OcrRoute.gemini_only_env env) fetch parse (base64 f) = Ret r /\
   match Gemini.text r with
   | Some t =>
       t <> "" /\
       OcrRoute.handler env fetch parse File base64 method upload
       = (200, OcrRoute.OcrText (Format.formatOCRResult (Parser.js t))
                                (Parser.extractPartnerHours (Parser.js t)))
   | None =>
       exists e, Gemini.error r = Some e /\ e <> "" /\
       OcrRoute.handler env fetch parse File base64 method upload
       = (500, OcrRoute.OcrError e None (Some true))
   end) /\
  (forall f, method = "POST" -> upload = Ret (Some f) ->
   (env "GEMINI_API_KEY" = None \/ env "GEMINI_API_KEY" = Some "") ->
   OcrRoute.handler env fetch parse File base64 method upload
   = (500, OcrRoute.OcrError Gemini.msg_key_missing None (Some true))).
Proof.
  unfold OcrRoute.handler. split; [|split; [|split; [|split]]].
  - intro H. apply String.eqb_neq in H. rewrite H. reflexivity.
  - intros m -> ->. reflexivity.
  - intros -> ->. reflexivity.
  - intros f -> ->.
    replace (String.eqb "POST" "POST") with true by reflexivity. cbn [negb bind].
    destruct (OcrFacts.analyzeImage_returns (OcrRoute.gemini_only_env env) fetch parse (base64 f))
      as (r & Hr & Hw).
    exists r. split; [exact Hr|].
    unfold OcrRoute.ocr_try. rewrite Hr. cbn [bind].
    destruct Hw as [(Ht & e & He & Hne)|(t & Ht & Hne)]; rewrite Ht.
    + exists e. split; [exact He|]. split; [exact Hne|].
      rewrite He, (OcrFacts.or_else_nonempty _ _ Hne). reflexivity.
    + split; [exact Hne|]. rewrite (OcrFacts.eqb_nonempty _ Hne). reflexivity.
  - intros f -> -> H.
    unfold OcrRoute.ocr_try, Gemini.analyzeImage, Gemini.analyzeImage_try,
      OcrRoute.gemini_only_env.
    cbv beta. destruct H as [H|H]; rewrite H; reflexivity.
Qed.

Lemma ocr_handler_outcomes_witness :
  OcrRoute.handler
    (fun k => if String.eqb k "NETLIFY_GEMINI_API_KEY" then Some "set" else None)
    (fun _ _ => Throw "unreachable") (fun _ => None) unit (fun _ => "") "POST" (Ret (Some tt))
  = (500, OcrRoute.OcrError Gemini.msg_key_missing None (Some true)).
Proof.
  apply (proj2 (proj2 (proj2 (proj2 (ocr_handler_outcomes
    (fun k => if String.eqb k "NETLIFY_GEMINI_API_KEY" then Some "set" else None)
    (fun _ _ => Throw "unreachable") (fun _ => None) unit (fun _ => "") "POST" (Ret (Some tt)))))) tt);
    [reflexivity | reflexivity | left; reflexivity].
Defined.
